(** * rmdb storage layer: DiskManager and DeleteExecutor

    A shallow embedding of [src/storage/disk_manager.cpp] and
    [src/execution/executor_delete.h], and the properties of the page
    storage manager and of the transactional delete operator proved over it.

    C++ exceptions are values of [exn]; a member function is a state
    transformer that returns the state it leaves behind together with either
    the exception it threw or its result: nothing is rolled back when an
    exception escapes, as in the source. *)

From Stdlib Require Import ZArith Lia.
From stdpp Require Import gmap strings list fin_maps.

Local Open Scope Z_scope.

Abbreviation byte := Byte.byte.

(** ** Machine integers *)

(** [int] is a 32-bit two's complement integer.  Signed overflow of plain
    [int] arithmetic is undefined in C++; the model wraps, and the theorems
    that depend on such arithmetic state the range in which it is exact. *)
Definition INT_MAX : Z := 2147483647.
Definition INT_MIN : Z := -2147483648.

Definition wrap_int (z : Z) : Z := (z + 2147483648) mod 4294967296 - 2147483648.

Definition in_int (z : Z) : Prop := INT_MIN ≤ z ≤ INT_MAX.

(** Conversion of an [int] argument to a [size_t] parameter (64 bits). *)
Definition to_size_t (z : Z) : Z := z mod 18446744073709551616.

(** The largest count a transfer can have: a buffer of more bytes does not
    lie in the address space of the process. *)
Definition SSIZE_MAX : Z := 9223372036854775807.

(** ** Exceptions and the state-and-exception monad *)

Inductive exn : Type :=
  | UnixError
  | FileExistsError (path : string)
  | FileNotFoundError (path : string)
  | FileNotOpenError (fd : Z)
  | AssertionFailure
  | OutOfRange
  | RecordNotFoundError
  | IndexEntryNotFoundError.

Definition M (S A : Type) : Type := S → S * (exn + A).

Definition ret {S A} (a : A) : M S A := λ s, (s, inr a).
Definition throw {S A} (e : exn) : M S A := λ s, (s, inl e).
Definition bind {S A B} (k : A → M S B) (m : M S A) : M S B :=
  λ s, match m s with
       | (s', inl e) => (s', inl e)
       | (s', inr a) => k a s'
       end.
Definition assert {S} (b : bool) : M S unit :=
  if b then ret tt else throw AssertionFailure.

(** stdpp's notations [x ← m; k] and [m;; k] sequence two computations. *)
#[export] Instance M_ret {S} : MRet (M S) := λ A, @ret S A.
#[export] Instance M_bind {S} : MBind (M S) := λ A B, @bind S A B.

(** ** The operating system underneath the disk manager

    The system calls the source uses ([stat], [open], [close], [lseek],
    [read], [write]) over a table of files and a table of open file
    descriptors.  A call returns what the C function returns: a negative
    value on failure. *)

Inductive file_kind : Type := S_IFREG | S_IFDIR.

Record inode : Type := mk_inode {
  i_kind : file_kind;
  i_rw   : bool;            (* the process may open the file read/write *)
  i_data : list byte
}.

Record ofd : Type := mk_ofd {
  ofd_path : string;
  ofd_pos  : Z              (* the file offset *)
}.

Record OS : Type := mk_OS {
  os_files  : gmap string inode;
  os_fds    : gmap Z ofd;
  os_nofile : nat;          (* RLIMIT_NOFILE: descriptors are 0 .. os_nofile-1 *)
  os_fsize  : Z             (* no file grows past this size: the file size
                               limit, or the room on the medium *)
}.

Definition set_fds (os : OS) (fds : gmap Z ofd) : OS :=
  mk_OS (os_files os) fds (os_nofile os) (os_fsize os).

Definition is_reg (k : file_kind) : bool :=
  match k with S_IFREG => true | S_IFDIR => false end.

(** [stat]: [None] stands for the return value -1. *)
Definition sys_stat (os : OS) (path : string) : option inode := os_files os !! path.

(** The lowest descriptor not in use, if the limit allows one. *)
Definition lowest_free_fd (os : OS) : option Z :=
  find (λ fd, bool_decide (os_fds os !! fd = None)) (seqZ 0 (Z.of_nat (os_nofile os))).

(** [open(path, O_RDWR)] *)
Definition sys_open (path : string) (os : OS) : OS * Z :=
  match os_files os !! path with
  | Some f =>
      if is_reg (i_kind f) && i_rw f then
        match lowest_free_fd os with
        | Some fd => (set_fds os (<[fd := mk_ofd path 0]> (os_fds os)), fd)
        | None => (os, -1)                                   (* EMFILE *)
        end
      else (os, -1)                                          (* EISDIR, EACCES *)
  | None => (os, -1)                                         (* ENOENT *)
  end.

(** [close(fd)] *)
Definition sys_close (fd : Z) (os : OS) : OS * Z :=
  match os_fds os !! fd with
  | Some _ => (set_fds os (delete fd (os_fds os)), 0)
  | None => (os, -1)                                         (* EBADF *)
  end.

Inductive whence : Type := SEEK_SET | SEEK_END.

Definition file_len (os : OS) (path : string) : Z :=
  match os_files os !! path with
  | Some f => Z.of_nat (length (i_data f))
  | None => 0
  end.

(** [lseek(fd, offset, whence)] *)
Definition sys_lseek (fd : Z) (offset : Z) (w : whence) (os : OS) : OS * Z :=
  match os_fds os !! fd with
  | Some d =>
      let pos := match w with
                 | SEEK_SET => offset
                 | SEEK_END => file_len os (ofd_path d) + offset
                 end in
      if pos <? 0 then (os, -1)                              (* EINVAL *)
      else (set_fds os (<[fd := mk_ofd (ofd_path d) pos]> (os_fds os)), pos)
  | None => (os, -1)                                         (* EBADF *)
  end.

(** [read(fd, buf, count)]: transfers the bytes between the file offset and
    the end of the file, at most [count] of them, to the front of [buf], and
    returns how many.  A count beyond the address range (a negative [int]
    converted to [size_t]) fails and transfers nothing, and so does a
    transfer past the end of the caller's buffer (EFAULT). *)
Definition sys_read (fd : Z) (buf : list byte) (count : Z) (os : OS)
  : OS * (Z * list byte) :=
  match os_fds os !! fd with
  | Some d =>
      match os_files os !! ofd_path d with
      | Some f =>
          if SSIZE_MAX <? count then (os, (-1, buf))         (* EFAULT *)
          else
            let got := take (Z.to_nat count) (drop (Z.to_nat (ofd_pos d)) (i_data f)) in
            if bool_decide (length got ≤ length buf)%nat then
              let n := Z.of_nat (length got) in
              (set_fds os (<[fd := mk_ofd (ofd_path d) (ofd_pos d + n)]> (os_fds os)),
               (n, got ++ drop (length got) buf))
            else (os, (-1, buf))                             (* EFAULT *)
      | None => (os, (-1, buf))
      end
  | None => (os, (-1, buf))                                  (* EBADF *)
  end.

(** The contents of a file after [bytes] are stored at offset [pos]; a gap
    between the old end of the file and [pos] reads as zero bytes. *)
Definition write_at (data : list byte) (pos : nat) (bytes : list byte) : list byte :=
  take pos data ++ replicate (pos - length data)%nat Byte.x00
    ++ bytes ++ drop (pos + length bytes)%nat data.

(** [write(fd, buf, count)]: stores the first [count] bytes of [buf] at the
    file offset, or as many as there is room for below the size limit, and
    returns how many were stored; with no room at all it fails (EFBIG,
    ENOSPC). *)
Definition sys_write (fd : Z) (buf : list byte) (count : Z) (os : OS) : OS * Z :=
  match os_fds os !! fd with
  | Some d =>
      match os_files os !! ofd_path d with
      | Some f =>
          if Z.of_nat (length buf) <? count then (os, -1)    (* EFAULT *)
          else if count =? 0 then (os, 0)
          else
            let room := os_fsize os - ofd_pos d in
            if room <=? 0 then (os, -1)                      (* EFBIG, ENOSPC *)
            else
              let n := Z.min count room in
              let bytes := take (Z.to_nat n) buf in
              let f' := mk_inode (i_kind f) (i_rw f)
                          (write_at (i_data f) (Z.to_nat (ofd_pos d)) bytes) in
              (mk_OS (<[ofd_path d := f']> (os_files os))
                     (<[fd := mk_ofd (ofd_path d) (ofd_pos d + n)]> (os_fds os))
                     (os_nofile os) (os_fsize os),
               n)
      | None => (os, -1)
      end
  | None => (os, -1)                                         (* EBADF *)
  end.

(** ** DiskManager *)

Record DiskManager : Type := mk_DiskManager {
  path2fd_   : gmap string Z;
  fd2path_   : gmap Z string;
  log_fd_    : Z;
  fd2pageno_ : list Z
}.

(** The state a member function of [DiskManager] runs in: the object and
    the operating system below it. *)
Record machine : Type := mk_machine {
  m_os : OS;
  m_dm : DiskManager
}.

Abbreviation DM := (M machine).

Definition syscall {A} (f : OS → OS * A) : DM A :=
  λ m, let '(os', a) := f (m_os m) in (mk_machine os' (m_dm m), inr a).

Definition get_dm : DM DiskManager := λ m, (m, inr (m_dm m)).
Definition put_dm (d : DiskManager) : DM unit := λ m, (mk_machine (m_os m) d, inr tt).
Definition get_os : DM OS := λ m, (m, inr (m_os m)).

Section DiskManager.

(** [defs.h] and [disk_manager.h] are not part of the sources at hand: the
    constants they declare are parameters of the model. *)
Variable PAGE_SIZE : Z.
Variable MAX_FD : Z.
Variable LOG_FILE_NAME : string.

(** *** The checked wrappers ([perror] only prints) *)

Definition Lseek (fd offset : Z) (w : whence) : DM unit :=
  r ← syscall (sys_lseek fd offset w);
  if r <? 0 then throw UnixError else ret tt.

Definition Write (fd : Z) (buf : list byte) (count : Z) : DM unit :=
  r ← syscall (sys_write fd buf count);
  if r <? 0 then throw UnixError else ret tt.

(** [Read] fills the caller's buffer: the model returns the buffer as the
    call leaves it. *)
Definition Read (fd : Z) (buf : list byte) (count : Z) : DM (list byte) :=
  '(r, buf') ← syscall (sys_read fd buf count);
  if r <? 0 then throw UnixError else ret buf'.

(** *** Construction

    [memset] clears the [MAX_FD] page counters; the two maps start empty.
    [log_fd_] starts as -1, the value [ReadLog] and [WriteLog] test for
    before they open the log file. *)
Definition new_DiskManager : DiskManager :=
  mk_DiskManager ∅ ∅ (-1) (replicate (Z.to_nat MAX_FD) 0).

(** *** Pages

    The buffer [offset] is a list of bytes, never a null pointer: the
    first [assert] of the two functions holds by construction.  A failed
    [assert] is the exception [AssertionFailure]. *)

Definition write_page (fd page_no : Z) (offset : list byte) (num_bytes : Z) : DM unit :=
  assert (num_bytes <=? PAGE_SIZE);;
  Lseek fd (wrap_int (page_no * PAGE_SIZE)) SEEK_SET;;
  Write fd offset (to_size_t num_bytes).

Definition read_page (fd page_no : Z) (offset : list byte) (num_bytes : Z)
  : DM (list byte) :=
  assert (num_bytes <=? PAGE_SIZE);;
  Lseek fd (wrap_int (page_no * PAGE_SIZE)) SEEK_SET;;
  Read fd offset (to_size_t num_bytes).

(** [fd2pageno_[fd]++] on a [std::atomic<page_id_t>]: the old value is
    returned and the counter is incremented, with two's complement
    wrap-around ([page_id_t] is a 32-bit integer). *)
Definition AllocatePage (fd : Z) : DM Z :=
  assert ((0 <=? fd) && (fd <? MAX_FD));;
  d ← get_dm;
  match fd2pageno_ d !! Z.to_nat fd with
  | Some c =>
      put_dm (mk_DiskManager (path2fd_ d) (fd2path_ d) (log_fd_ d)
                (<[Z.to_nat fd := wrap_int (c + 1)]> (fd2pageno_ d)));;
      ret c
  | None => throw AssertionFailure
  end.

(** *** Files *)

Definition is_file (path : string) : DM bool :=
  os ← get_os;
  match sys_stat os path with
  | None => ret false
  | Some st => ret (is_reg (i_kind st))
  end.

Definition open_file (path : string) : DM Z :=
  b ← is_file path;
  if negb b then throw (FileNotFoundError path)
  else
    d ← get_dm;
    match path2fd_ d !! path with
    | None =>
        fd ← syscall (sys_open path);
        put_dm (mk_DiskManager (<[path := fd]> (path2fd_ d))
                  (<[fd := path]> (fd2path_ d)) (log_fd_ d) (fd2pageno_ d));;
        ret fd
    | Some fd => ret fd
    end.

Definition close_file (fd : Z) : DM unit :=
  d ← get_dm;
  match fd2path_ d !! fd with
  | Some path =>
      syscall (sys_close fd);;
      put_dm (mk_DiskManager (delete path (path2fd_ d))
                (delete fd (fd2path_ d)) (log_fd_ d) (fd2pageno_ d))
  | None => throw (FileNotOpenError fd)
  end.

(** [st_size] is converted to the [int] the function returns. *)
Definition GetFileSize (file_name : string) : DM Z :=
  os ← get_os;
  match sys_stat os file_name with
  | Some st => ret (wrap_int (Z.of_nat (length (i_data st))))
  | None => ret (-1)
  end.

(** *** The log file *)

Definition set_log_fd (fd : Z) : DM unit :=
  d ← get_dm;
  put_dm (mk_DiskManager (path2fd_ d) (fd2path_ d) fd (fd2pageno_ d)).

Definition open_log : DM unit :=
  d ← get_dm;
  if log_fd_ d =? -1 then
    fd ← open_file LOG_FILE_NAME;
    set_log_fd fd
  else ret tt.

(** The result pairs the returned [bool] with the caller's buffer
    [log_data] as the call leaves it. *)
Definition ReadLog (log_data : list byte) (size offset prev_log_end : Z)
  : DM (bool * list byte) :=
  open_log;;
  let offset := wrap_int (offset + prev_log_end) in
  file_size ← GetFileSize LOG_FILE_NAME;
  if offset >=? file_size then ret (false, log_data)
  else
    let size := Z.min size (wrap_int (file_size - offset)) in
    d ← get_dm;
    syscall (sys_lseek (log_fd_ d) offset SEEK_SET);;
    '(bytes_read, log_data') ← syscall (sys_read (log_fd_ d) log_data (to_size_t size));
    if negb (bytes_read =? size) then throw UnixError
    else ret (true, log_data').

Definition WriteLog (log_data : list byte) (size : Z) : DM unit :=
  open_log;;
  d ← get_dm;
  syscall (sys_lseek (log_fd_ d) 0 SEEK_END);;
  bytes_write ← syscall (sys_write (log_fd_ d) log_data (to_size_t size));
  if negb (bytes_write =? size) then throw UnixError
  else ret tt.

End DiskManager.

(** ** The delete executor

    [executor_delete.h] is compiled against headers that are not part of the
    sources at hand.  The data they declare is given here with the fields
    the executor reads; the classes whose member functions it calls are
    interfaces. *)

Record Rid : Type := mk_Rid {
  page_no : Z;
  slot_no : Z
}.

#[export] Instance Rid_eq_dec : EqDecision Rid.
Proof. solve_decision. Defined.

#[export] Instance Rid_countable : Countable Rid.
Proof.
  refine (inj_countable' (λ r, (page_no r, slot_no r))
            (λ p, mk_Rid p.1 p.2) _).
  by intros [].
Defined.

(** [RmRecord]: the bytes of one row ([size] is their number). *)
Record RmRecord : Type := mk_RmRecord {
  data : list byte
}.

Record ColMeta : Type := mk_ColMeta {
  col_name : string;
  len      : nat;
  offset   : nat;
  index    : bool
}.

Record TabMeta : Type := mk_TabMeta {
  name : string;
  cols : list ColMeta
}.

Inductive WType : Type := INSERT_TUPLE | DELETE_TUPLE | UPDATE_TUPLE.

Record WriteRecord : Type := mk_WriteRecord {
  wtype_    : WType;
  tab_name_ : string;
  rid_      : Rid;
  record_   : RmRecord
}.

(** Modelled from the spec: [Transaction] and its [AppendWriteRecord] are
    not part of the sources at hand.  The transaction owns an ordered list
    of write records; [appendWriteRecord(record)] always succeeds and puts
    the record at the end of the list. *)
Record Transaction : Type := mk_Transaction {
  write_set_ : list WriteRecord
}.

Definition AppendWriteRecord (wr : WriteRecord) (t : Transaction) : Transaction :=
  mk_Transaction (write_set_ t ++ [wr]).

(** The heap file of a table. *)
Class RmFileHandle (File : Type) : Type := {
  get_record    : File → Rid → exn + RmRecord;
  delete_record : File → Rid → exn + File
}.

(** The index on one column.  [delete_entry] receives a pointer to the key
    inside the row, here the bytes of the row from that position on, and
    the transaction. *)
Class IxIndexHandle (Ix : Type) : Type := {
  delete_entry : Ix → list byte → Transaction → exn + Ix
}.

(** What the executor did to its collaborators, in the order it did it:
    one event for every call that returned.  The source keeps no such log;
    it is there to state the order of the effects. *)
Inductive event : Type :=
  | EvGetRecord (rid : Rid) (rec : RmRecord)
  | EvDeleteEntry (tab : string) (col_i : nat) (key : list byte)
  | EvDeleteRecord (rid : Rid)
  | EvAppendWriteRecord (wr : WriteRecord).

Section DeleteExecutor.

Context {File Ix : Type} `{!RmFileHandle File} `{!IxIndexHandle Ix}.

(** [SmManager]: the catalogue, the heap file of every table and the index
    handles; an index handle is filed under the name that
    [get_index_name(tab_name, col_i)] builds, here the pair itself. *)
Record SmManager : Type := mk_SmManager {
  db_  : gmap string TabMeta;
  fhs_ : gmap string File;
  ihs_ : gmap (string * nat) Ix
}.

(** The state [Next] runs in: the system manager and the transaction of
    the context, both reached through pointers in the source, and the log
    of events. *)
Record world : Type := mk_world {
  w_sm    : SmManager;
  w_txn   : Transaction;
  w_calls : list event
}.

Abbreviation EM := (M world).

Definition add_call (e : event) (w : world) : world :=
  mk_world (w_sm w) (w_txn w) (w_calls w ++ [e]).
Definition set_fh (tab : string) (fh : File) (w : world) : world :=
  mk_world (mk_SmManager (db_ (w_sm w)) (<[tab := fh]> (fhs_ (w_sm w)))
              (ihs_ (w_sm w))) (w_txn w) (w_calls w).
Definition set_ih (tab : string) (i : nat) (ih : Ix) (w : world) : world :=
  mk_world (mk_SmManager (db_ (w_sm w)) (fhs_ (w_sm w))
              (<[(tab, i) := ih]> (ihs_ (w_sm w)))) (w_txn w) (w_calls w).
Definition set_txn (t : Transaction) (w : world) : world :=
  mk_world (w_sm w) t (w_calls w).

Definition get_world : EM world := λ w, (w, inr w).
Definition log (e : event) : EM unit := λ w, (add_call e w, inr tt).
Definition put_fh (tab : string) (fh : File) : EM unit := λ w, (set_fh tab fh w, inr tt).
Definition put_ih (tab : string) (i : nat) (ih : Ix) : EM unit :=
  λ w, (set_ih tab i ih w, inr tt).
Definition put_txn (t : Transaction) : EM unit := λ w, (set_txn t w, inr tt).
Definition lift {A} (r : exn + A) : EM A :=
  match r with inl e => throw e | inr a => ret a end.

(** [DeleteExecutor]: [fh_] points to the heap file handle that
    [sm_manager_->fhs_] owns; the model keeps the key it is filed under. *)
Record DeleteExecutor : Type := mk_DeleteExecutor {
  tab_  : TabMeta;
  fh_   : string;
  rids_ : list Rid;
  ex_tab_name_ : string
}.

(** [std::unordered_map::at] throws [std::out_of_range] for a missing key. *)
Definition at_ {K V} `{Countable K} (m : gmap K V) (k : K) : EM V :=
  match m !! k with Some v => ret v | None => throw OutOfRange end.

Definition new_DeleteExecutor (tab_name : string) (rids : list Rid) : EM DeleteExecutor :=
  w ← get_world;
  tab ← at_ (db_ (w_sm w)) tab_name;
  at_ (fhs_ (w_sm w)) tab_name;;
  ret (mk_DeleteExecutor tab tab_name rids tab_name).

(** [sm_manager_->ihs_.at(get_index_name(tab_name_, i)).get()] *)
Definition index_handle (tab_name : string) (i : nat) : EM Ix :=
  w ← get_world;
  at_ (ihs_ (w_sm w)) (tab_name, i).

(** A [for] loop over the elements of a vector, and one that also counts
    the position. *)
Fixpoint for_each {St A} (body : A → M St unit) (l : list A) : M St unit :=
  match l with
  | [] => ret tt
  | x :: l' => body x;; for_each body l'
  end.

Fixpoint for_each_from {St A} (i : nat) (body : nat → A → M St unit) (l : list A)
  : M St unit :=
  match l with
  | [] => ret tt
  | x :: l' => body i x;; for_each_from (S i) body l'
  end.

(** The first loop of [Next] looks up the handle of every indexed column
    and pushes it on a local vector that is not read afterwards; what
    remains of it is the lookup, which can throw. *)
Definition get_all_index_files (ex : DeleteExecutor) : EM unit :=
  for_each_from 0%nat
    (λ col_i col, if index col
                  then index_handle (ex_tab_name_ ex) col_i;; ret tt
                  else ret tt)
    (cols (tab_ ex)).

(** [ih->delete_entry(rec->data + col.offset, context_->txn_)] for one
    column. *)
Definition delete_from_index (ex : DeleteExecutor) (rec : RmRecord)
    (i : nat) (col : ColMeta) : EM unit :=
  if index col then
    ih ← index_handle (ex_tab_name_ ex) i;
    w ← get_world;
    ih' ← lift (delete_entry ih (drop (offset col) (data rec)) (w_txn w));
    put_ih (ex_tab_name_ ex) i ih';;
    log (EvDeleteEntry (ex_tab_name_ ex) i (drop (offset col) (data rec)))
  else ret tt.

(** The body of the loop over [rids_]. *)
Definition delete_rid (ex : DeleteExecutor) (rid : Rid) : EM unit :=
  w ← get_world;
  fh ← at_ (fhs_ (w_sm w)) (fh_ ex);
  rec ← lift (get_record fh rid);
  log (EvGetRecord rid rec);;
  for_each_from 0%nat (delete_from_index ex rec) (cols (tab_ ex));;
  w ← get_world;
  fh ← at_ (fhs_ (w_sm w)) (fh_ ex);
  fh' ← lift (delete_record fh rid);
  put_fh (fh_ ex) fh';;
  log (EvDeleteRecord rid);;
  let wr := mk_WriteRecord DELETE_TUPLE (ex_tab_name_ ex) rid rec in
  w ← get_world;
  put_txn (AppendWriteRecord wr (w_txn w));;
  log (EvAppendWriteRecord wr).

(** [Next] returns [nullptr]. *)
Definition Next (ex : DeleteExecutor) : EM (option RmRecord) :=
  get_all_index_files ex;;
  for_each (delete_rid ex) (rids_ ex);;
  ret None.

End DeleteExecutor.

(** ** The collaborators of the delete executor *)

#[export] Instance byte_eq_dec : EqDecision byte := Byte.byte_eq_dec.

(** Modelled from the spec: [RmFileHandle] (the Heap Record Store) is not
    part of the sources at hand.  [get(rid) -> bytes] and [delete(rid)]
    both fail with RecordNotFound on an invalid rid; the store is a finite
    map from row identifiers to rows. *)
Record HeapFile : Type := mk_HeapFile {
  records : gmap Rid RmRecord
}.

#[export] Instance HeapFile_handle : RmFileHandle HeapFile := {|
  get_record fh rid :=
    match records fh !! rid with
    | Some rec => inr rec
    | None => inl RecordNotFoundError
    end;
  delete_record fh rid :=
    match records fh !! rid with
    | Some _ => inr (mk_HeapFile (delete rid (records fh)))
    | None => inl RecordNotFoundError
    end
|}.

(** Modelled from the spec: [IxIndexHandle] (the Index Access Facade) is
    not part of the sources at hand.  An index holds (encoded key, Rid)
    entries on the encoded bytes of one column and deleting an entry fails
    with KeyNotFound if it is absent.  The call in the source hands over
    the position of the key in the row and no Rid: the key is the first
    [key_len] bytes from that position on, and the entry deleted is the
    first one with that key. *)
Record BTreeIndex : Type := mk_BTreeIndex {
  key_len : nat;
  entries : list (list byte * Rid)
}.

Definition has_key (key : list byte) (e : list byte * Rid) : bool :=
  bool_decide (e.1 = key).

Fixpoint remove_key (key : list byte) (es : list (list byte * Rid))
  : option (list (list byte * Rid)) :=
  match es with
  | [] => None
  | e :: es' =>
      if has_key key e then Some es'
      else match remove_key key es' with
           | Some r => Some (e :: r)
           | None => None
           end
  end.

#[export] Instance BTreeIndex_handle : IxIndexHandle BTreeIndex := {|
  delete_entry ih key_ptr _ :=
    match remove_key (take (key_len ih) key_ptr) (entries ih) with
    | Some es => inr (mk_BTreeIndex (key_len ih) es)
    | None => inl IndexEntryNotFoundError
    end
|}.

(** The bytes of column [col] in a row. *)
Definition col_bytes (col : ColMeta) (rec : RmRecord) : list byte :=
  take (len col) (drop (offset col) (data rec)).

(** ** Schedules

    The events of one row, and of a batch of rows, in the order
    FetchRow, DeleteFromIndexes, DeleteFromHeap, AppendWriteRecord. *)

Fixpoint index_events (tab : string) (rec : RmRecord) (i : nat) (cs : list ColMeta)
  : list event :=
  match cs with
  | [] => []
  | c :: cs' =>
      (if index c then [EvDeleteEntry tab i (drop (offset c) (data rec))] else [])
        ++ index_events tab rec (S i) cs'
  end.

Definition delete_record_of (tab : string) (rid : Rid) (rec : RmRecord) : WriteRecord :=
  mk_WriteRecord DELETE_TUPLE tab rid rec.

Definition row_events (tab : string) (cs : list ColMeta) (row : Rid * RmRecord)
  : list event :=
  [EvGetRecord row.1 row.2] ++ index_events tab row.2 0%nat cs
    ++ [EvDeleteRecord row.1; EvAppendWriteRecord (delete_record_of tab row.1 row.2)].

Definition schedule (tab : string) (cs : list ColMeta) (rows : list (Rid * RmRecord))
  : list event :=
  concat (row_events tab cs <$> rows).

(** The world after a successful [delete_entry] on the index of column
    [i], and the world after the heap deletion and the write record of one
    row. *)
Abbreviation with_index ex i ih key w :=
  (add_call (EvDeleteEntry (ex_tab_name_ ex) i key) (set_ih (ex_tab_name_ ex) i ih w)).

Abbreviation with_row_deleted ex rid rec fh' w :=
  (add_call (EvAppendWriteRecord (delete_record_of (ex_tab_name_ ex) rid rec))
     (set_txn (AppendWriteRecord (delete_record_of (ex_tab_name_ ex) rid rec) (w_txn w))
        (add_call (EvDeleteRecord rid) (set_fh (fh_ ex) fh' w)))).

(** The rows that a batch fetches: every row is read from the heap file as
    the deletion of the rows before it has left it. *)
Fixpoint fetched `{RmFileHandle File} (fh : File) (rids : list Rid)
    (recs : list RmRecord) : Prop :=
  match rids, recs with
  | [], [] => True
  | rid :: rids', rec :: recs' =>
      get_record fh rid = inr rec ∧
      ∃ fh', delete_record fh rid = inr fh' ∧ fetched fh' rids' recs'
  | _, _ => False
  end.

(** ** What the events do

    An event stands for one call that returned, and the call did something
    to the system manager or to the transaction.  [perform_event] is that
    effect on its own: the fetch finds the row in the heap file, a deletion
    puts back the index handle or the heap file that [delete_entry] or
    [delete_record] returned, the append puts the write record at the end
    of the write set.  [perform] does so for a list of events, one after
    the other, each on the state the one before it left. *)

#[export] Instance RmRecord_eq_dec : EqDecision RmRecord.
Proof. solve_decision. Defined.

Section Perform.

Context {File Ix : Type} `{!RmFileHandle File} `{!IxIndexHandle Ix}.

Definition perform_event (fh_name : string) (e : event)
    (s : SmManager (File := File) (Ix := Ix) * Transaction)
  : option (SmManager (File := File) (Ix := Ix) * Transaction) :=
  match e with
  | EvGetRecord rid rec =>
      match fhs_ s.1 !! fh_name with
      | Some fh =>
          match get_record fh rid with
          | inr rec' => if decide (rec' = rec) then Some s else None
          | inl _ => None
          end
      | None => None
      end
  | EvDeleteEntry tab col_i key =>
      match ihs_ s.1 !! (tab, col_i) with
      | Some ih =>
          match delete_entry ih key s.2 with
          | inr ih' =>
              Some (mk_SmManager (db_ s.1) (fhs_ s.1) (<[(tab, col_i) := ih']> (ihs_ s.1)),
                    s.2)
          | inl _ => None
          end
      | None => None
      end
  | EvDeleteRecord rid =>
      match fhs_ s.1 !! fh_name with
      | Some fh =>
          match delete_record fh rid with
          | inr fh' =>
              Some (mk_SmManager (db_ s.1) (<[fh_name := fh']> (fhs_ s.1)) (ihs_ s.1),
                    s.2)
          | inl _ => None
          end
      | None => None
      end
  | EvAppendWriteRecord wr =>
      Some (s.1, mk_Transaction (write_set_ s.2 ++ [wr]))
  end.

Fixpoint perform (fh_name : string) (t : list event)
    (s : SmManager (File := File) (Ix := Ix) * Transaction)
  : option (SmManager (File := File) (Ix := Ix) * Transaction) :=
  match t with
  | [] => Some s
  | e :: t' =>
      match perform_event fh_name e s with
      | Some s' => perform fh_name t' s'
      | None => None
      end
  end.

(** The system manager and the transaction of a world. *)
Definition state_of (w : world (File := File) (Ix := Ix))
  : SmManager (File := File) (Ix := Ix) * Transaction :=
  (w_sm w, w_txn w).

End Perform.

(** ** Indexes and the sentence of the spec about them *)

(** Every indexed column among [cs], the columns of the table from
    position [i] on, has an index handle, built on the bytes of that
    column. *)
Definition indexes_built {File : Type} (ex : DeleteExecutor)
    (w : world (File := File) (Ix := BTreeIndex)) (i : nat) (cs : list ColMeta) : Prop :=
  ∀ (j : nat) (col : ColMeta),
    cs !! j = Some col → index col = true →
    ∃ ih, ihs_ (w_sm w) !! (ex_tab_name_ ex, (i + j)%nat) = Some ih ∧
          key_len ih = len col.

(** The sentence of the spec on index entries, for the first row of a
    batch: where the index on an indexed column holds no entry that pairs
    the bytes of the column in the fetched row with the Rid of the row,
    the call fails with KeyNotFound. *)
Definition fails_if_entry_of_rid_absent (ex : DeleteExecutor)
    (w : world (File := HeapFile) (Ix := BTreeIndex)) : Prop :=
  ∀ (rid : Rid) (rest : list Rid) (fh : HeapFile) (rec : RmRecord)
    (i : nat) (col : ColMeta) (ih : BTreeIndex),
    rids_ ex = rid :: rest →
    fhs_ (w_sm w) !! fh_ ex = Some fh →
    records fh !! rid = Some rec →
    cols (tab_ ex) !! i = Some col → index col = true →
    ihs_ (w_sm w) !! (ex_tab_name_ ex, i) = Some ih →
    (col_bytes col rec, rid) ∉ entries ih →
    (Next ex w).2 = inl IndexEntryNotFoundError.

(** ** The Open File Table invariant *)

(** The two maps are inverses of each other: a path has at most one
    handle, a handle has exactly one path. *)
Definition oft_inv (d : DiskManager) : Prop :=
  ∀ path fd, path2fd_ d !! path = Some fd ↔ fd2path_ d !! fd = Some path.

(** Every handle of the table is an open descriptor of the process. *)
Definition fds_open (m : machine) : Prop :=
  ∀ fd path, fd2path_ (m_dm m) !! fd = Some path → is_Some (os_fds (m_os m) !! fd).

(** [AllocatePage], [k] times in a row; the page numbers in the order they
    were returned. *)
Fixpoint allocate_pages (MAX_FD : Z) (fd : Z) (k : nat) : DM (list Z) :=
  match k with
  | O => ret []
  | S k' =>
      p ← AllocatePage MAX_FD fd;
      ps ← allocate_pages MAX_FD fd k';
      ret (p :: ps)
  end.

(** A sequence of operations on the Open File Table.  [run_ops] returns
    the machine it ends in and whether every [open_file] that returned a
    handle returned a descriptor (not the -1 of a failed [open]). *)
Inductive table_op : Type :=
  | OpOpen (path : string)
  | OpClose (fd : Z).

Fixpoint run_ops (ops : list table_op) (m : machine) : machine * bool :=
  match ops with
  | [] => (m, true)
  | OpOpen path :: ops' =>
      match open_file path m with
      | (m', inr fd) => let r := run_ops ops' m' in (r.1, (0 <=? fd) && r.2)
      | (m', inl _) => run_ops ops' m'
      end
  | OpClose fd :: ops' => run_ops ops' (close_file fd m).1
  end.

(** The machine with the page counter of [fd] set to [v]. *)
Definition set_pageno (fd : Z) (v : Z) (m : machine) : machine :=
  mk_machine (m_os m)
    (mk_DiskManager (path2fd_ (m_dm m)) (fd2path_ (m_dm m)) (log_fd_ (m_dm m))
       (<[Z.to_nat fd := v]> (fd2pageno_ (m_dm m)))).

(** ** The rest of the disk manager

    [create_dir] and [destroy_dir] hand a command line to [system]; they
    are outside this model. *)

Inductive oflag : Type := O_RDWR | O_CREAT.

(** [open(path, O_CREAT)]: the path is opened for reading, and a regular
    file is created for it first if there is none.  The call in the source
    has no mode argument, so the permission bits of a new file are whatever
    the third argument happens to hold: [mode_rw] says whether they allow
    the process to open the file read/write later on.  The table of files
    is flat: the directory of a new path is taken to exist, and existing
    files to be readable. *)
Definition sys_open_creat (mode_rw : bool) (path : string) (os : OS) : OS * Z :=
  match lowest_free_fd os with
  | None => (os, -1)                                         (* EMFILE *)
  | Some fd =>
      match os_files os !! path with
      | Some f =>
          if is_reg (i_kind f)
          then (set_fds os (<[fd := mk_ofd path 0]> (os_fds os)), fd)
          else (os, -1)                                      (* EISDIR *)
      | None =>
          (mk_OS (<[path := mk_inode S_IFREG mode_rw []]> (os_files os))
                 (<[fd := mk_ofd path 0]> (os_fds os))
                 (os_nofile os) (os_fsize os),
           fd)
      end
  end.

(** [unlink(pathname)] *)
Definition sys_unlink (path : string) (os : OS) : OS * Z :=
  match os_files os !! path with
  | Some f =>
      if is_reg (i_kind f)
      then (mk_OS (delete path (os_files os)) (os_fds os) (os_nofile os) (os_fsize os), 0)
      else (os, -1)                                          (* EISDIR *)
  | None => (os, -1)                                         (* ENOENT *)
  end.

Section DiskManagerFiles.

(** See [sys_open_creat]. *)
Variable mode_rw : bool.

Definition Open (path : string) (flags : oflag) : DM Z :=
  fd ← syscall (match flags with
                | O_RDWR => sys_open path
                | O_CREAT => sys_open_creat mode_rw path
                end);
  if fd <? 0 then throw UnixError else ret fd.

Definition Close (fd : Z) : DM unit :=
  r ← syscall (sys_close fd);
  if r <? 0 then throw UnixError else ret tt.

Definition Unlink (pathname : string) : DM unit :=
  r ← syscall (sys_unlink pathname);
  if r <? 0 then throw UnixError else ret tt.

Definition DeallocatePage (page_id : Z) : DM unit := ret tt.

Definition is_dir (path : string) : DM bool :=
  os ← get_os;
  match sys_stat os path with
  | Some st => ret (match i_kind st with S_IFDIR => true | S_IFREG => false end)
  | None => ret false
  end.

Definition create_file (path : string) : DM unit :=
  os ← get_os;
  match sys_stat os path with
  | Some _ => throw (FileExistsError path)
  | None =>
      fd ← Open path O_CREAT;
      Close fd
  end.

Definition destroy_file (path : string) : DM unit :=
  d ← get_dm;
  match path2fd_ d !! path with
  | Some _ => throw (FileNotFoundError path)
  | None =>
      os ← get_os;
      match sys_stat os path with
      | None => throw (FileNotFoundError path)
      | Some _ => Unlink path
      end
  end.

Definition GetFileName (fd : Z) : DM string :=
  d ← get_dm;
  match fd2path_ d !! fd with
  | None => throw (FileNotOpenError fd)
  | Some path => ret path
  end.

Definition GetFileFd (file_name : string) : DM Z :=
  d ← get_dm;
  match path2fd_ d !! file_name with
  | None => open_file file_name
  | Some fd => ret fd
  end.

End DiskManagerFiles.

(** The heap file that a batch leaves behind: [delete_record] for one row
    identifier after the other. *)
Fixpoint deleted `{RmFileHandle File} (fh : File) (rids : list Rid) (fh' : File) : Prop :=
  match rids with
  | [] => fh' = fh
  | rid :: rids' => ∃ fh1, delete_record fh rid = inr fh1 ∧ deleted fh1 rids' fh'
  end.

(** ** Example states *)

Definition b (n : N) : byte := default Byte.x00 (Byte.of_N n).

(** Two regular files that the process may not open for writing. *)
Definition read_only_file : inode := mk_inode S_IFREG false [b 1].

Definition m_read_only : machine :=
  mk_machine
    (mk_OS {[ "a.tbl" := read_only_file; "b.tbl" := read_only_file ]} ∅ 16 65536)
    (new_DiskManager 16).

Definition log_inode : inode := mk_inode S_IFREG true [b 10; b 11; b 12; b 13; b 14].

(** A three-byte table file, a log file, and no descriptor in use; files
    grow up to [limit] bytes. *)
Definition os_small (limit : Z) : OS :=
  mk_OS {[ "t.tbl" := mk_inode S_IFREG true [b 1; b 2; b 3];
           "db.log" := log_inode ]}
        ∅ 16 limit.

Definition m_small (limit : Z) : machine :=
  mk_machine (os_small limit) (new_DiskManager 16).

(** The small machine after [open_file] of the table file, which gets
    descriptor 0. *)
Definition m_opened : machine := (open_file "t.tbl" (m_small 65536)).1.

(** The small machine after a first [ReadLog], which opened the log. *)
Definition m_logging : machine :=
  (ReadLog "db.log" [b 0; b 0; b 0] 3 0 0 (m_small 65536)).1.

(** The table of the scenario: [T (id : int, indexed; name : varchar)] with
    the row [(5, "x")] under [R1]. *)
Definition R1 : Rid := mk_Rid 1 0.
Definition R2 : Rid := mk_Rid 1 1.

Definition tab_T : TabMeta :=
  mk_TabMeta "T" [mk_ColMeta "id" 4 0 true; mk_ColMeta "name" 1 4 false].

Definition row_5x : RmRecord := mk_RmRecord [b 5; b 0; b 0; b 0; b 120].
Definition key_5 : list byte := [b 5; b 0; b 0; b 0].

(** The world with this table, its heap file and the index on [id] holding
    the entries [es]; the transaction has written nothing yet. *)
Definition w_T (es : list (list byte * Rid)) : world :=
  mk_world
    (mk_SmManager {[ "T" := tab_T ]}
       {[ "T" := mk_HeapFile {[ R1 := row_5x ]} ]}
       {[ ("T", 0%nat) := mk_BTreeIndex 4 es ]})
    (mk_Transaction [])
    [].

(** The executor that [new_DeleteExecutor "T" [R1]] builds. *)
Definition ex_T : DeleteExecutor := mk_DeleteExecutor tab_T "T" [R1] "T".

(** The small machine with room for two more bytes in the log, after a
    first [ReadLog]. *)
Definition m_logging_tight : machine :=
  (ReadLog "db.log" [b 0] 1 0 0 (m_small 7)).1.

(** The small machine after two page allocations on handle 0. *)
Definition m_allocated : machine := (allocate_pages 16 0 2 (m_small 65536)).1.

(** A machine whose process has no descriptor to spare, and one with a
    directory. *)
Definition m_no_descriptor : machine :=
  mk_machine (mk_OS ∅ ∅ 0 65536) (new_DiskManager 16).

Definition m_directory : machine :=
  mk_machine (mk_OS {[ "data" := mk_inode S_IFDIR true [] ]} ∅ 16 65536)
    (new_DiskManager 16).

(** The world of the scenario without the index handle of [id], and the
    executor of an empty batch. *)
Definition w_T_no_index : world :=
  mk_world
    (mk_SmManager {[ "T" := tab_T ]}
       {[ "T" := mk_HeapFile {[ R1 := row_5x ]} ]}
       (∅ : gmap (string * nat) BTreeIndex))
    (mk_Transaction [])
    [].

Definition ex_T_empty : DeleteExecutor := mk_DeleteExecutor tab_T "T" [] "T".

(** * Properties *)

(** Unfolding of the monad. *)
Ltac run :=
  unfold mbind, M_bind, bind, mret, M_ret, ret, throw, assert, syscall,
    get_dm, put_dm, get_os in *; simpl in *.

Lemma wrap_int_id (z : Z) : in_int z → wrap_int z = z.
Proof.
  unfold in_int, INT_MIN, INT_MAX, wrap_int. intros Hz.
  rewrite Z.mod_small; lia.
Qed.

Lemma to_size_t_id (z : Z) : 0 ≤ z ≤ INT_MAX → to_size_t z = z.
Proof.
  unfold INT_MAX, to_size_t. intros Hz. rewrite Z.mod_small; lia.
Qed.

(** ** Files: [is_file], [open_file], [close_file] *)

Lemma is_file_run (path : string) (m : machine) :
  is_file path m =
    (m, inr match os_files (m_os m) !! path with
            | Some st => is_reg (i_kind st)
            | None => false
            end).
Proof.
  unfold is_file, sys_stat. run. by destruct (os_files (m_os m) !! path).
Qed.

Lemma open_file_not_found (path : string) (m : machine) :
  (∀ st, os_files (m_os m) !! path = Some st → i_kind st = S_IFDIR) →
  open_file path m = (m, inl (FileNotFoundError path)).
Proof.
  intros Hno. unfold open_file. run. rewrite is_file_run.
  destruct (os_files (m_os m) !! path) as [st|] eqn:Hst; [|done].
  by rewrite (Hno st eq_refl).
Qed.

Lemma open_file_already_open (path : string) (fd : Z) (m : machine) (st : inode) :
  os_files (m_os m) !! path = Some st → i_kind st = S_IFREG →
  path2fd_ (m_dm m) !! path = Some fd →
  open_file path m = (m, inr fd).
Proof.
  intros Hst Hreg Hfd. unfold open_file. run. rewrite is_file_run, Hst, Hreg.
  simpl. by rewrite Hfd.
Qed.

Lemma sys_open_files (path : string) (os : OS) :
  os_files (sys_open path os).1 = os_files os.
Proof.
  unfold sys_open. destruct (os_files os !! path) as [f|]; [|done].
  destruct (is_reg (i_kind f) && i_rw f); [|done].
  by destruct (lowest_free_fd os).
Qed.

Lemma open_file_fresh (path : string) (m : machine) (st : inode) :
  os_files (m_os m) !! path = Some st → i_kind st = S_IFREG →
  path2fd_ (m_dm m) !! path = None →
  open_file path m =
    (let r := sys_open path (m_os m) in
     (mk_machine r.1
        (mk_DiskManager (<[path := r.2]> (path2fd_ (m_dm m)))
           (<[r.2 := path]> (fd2path_ (m_dm m))) (log_fd_ (m_dm m))
           (fd2pageno_ (m_dm m))),
      inr r.2)).
Proof.
  intros Hst Hreg Hfd. unfold open_file. run. rewrite is_file_run, Hst, Hreg.
  simpl. rewrite Hfd. by destruct (sys_open path (m_os m)).
Qed.

Lemma close_file_open (fd : Z) (path : string) (m : machine) :
  fd2path_ (m_dm m) !! fd = Some path →
  close_file fd m =
    (mk_machine (sys_close fd (m_os m)).1
       (mk_DiskManager (delete path (path2fd_ (m_dm m)))
          (delete fd (fd2path_ (m_dm m))) (log_fd_ (m_dm m))
          (fd2pageno_ (m_dm m))),
     inr tt).
Proof.
  intros Hfd. unfold close_file. run. rewrite Hfd.
  by destruct (sys_close fd (m_os m)).
Qed.

Lemma close_file_not_open (fd : Z) (m : machine) :
  fd2path_ (m_dm m) !! fd = None →
  close_file fd m = (m, inl (FileNotOpenError fd)).
Proof. intros Hfd. unfold close_file. run. by rewrite Hfd. Qed.

(** [close_file] keeps the two maps inverse to each other. *)
Lemma oft_inv_close_file (fd : Z) (m : machine) :
  oft_inv (m_dm m) → oft_inv (m_dm (close_file fd m).1).
Proof.
  intros Hinv.
  destruct (fd2path_ (m_dm m) !! fd) as [path|] eqn:Hfd.
  - rewrite (close_file_open _ _ _ Hfd). simpl. intros p h. simpl.
    rewrite !lookup_delete_Some. split.
    + intros [Hne Hp]. apply Hinv in Hp. split; [|done].
      intros ->. congruence.
    + intros [Hne Hh]. apply Hinv in Hh. split; [|done].
      intros ->. apply Hinv in Hfd. congruence.
  - by rewrite (close_file_not_open _ _ Hfd).
Qed.

Lemma lowest_free_fd_free (os : OS) (fd : Z) :
  lowest_free_fd os = Some fd → os_fds os !! fd = None ∧ 0 ≤ fd.
Proof.
  unfold lowest_free_fd. intros Hfind.
  apply find_some in Hfind as [Hin Hfree].
  apply bool_decide_eq_true in Hfree. split; [done|].
  apply list_elem_of_In, elem_of_seqZ in Hin. lia.
Qed.

Lemma sys_open_cases (path : string) (os : OS) :
  (sys_open path os = (os, -1)) ∨
  (∃ fd, 0 ≤ fd ∧ os_fds os !! fd = None ∧
     sys_open path os = (set_fds os (<[fd := mk_ofd path 0]> (os_fds os)), fd)).
Proof.
  unfold sys_open. destruct (os_files os !! path) as [f|]; [|by left].
  destruct (is_reg (i_kind f) && i_rw f); [|by left].
  destruct (lowest_free_fd os) as [fd|] eqn:Hfree; [|by left].
  apply lowest_free_fd_free in Hfree as [? ?]. right. by exists fd.
Qed.

(** [open_file] keeps the table sound whenever the descriptor it got from
    [open] is a descriptor. *)
Lemma oft_inv_open_file (path : string) (m m' : machine) (fd : Z) :
  oft_inv (m_dm m) → fds_open m →
  open_file path m = (m', inr fd) → 0 ≤ fd →
  oft_inv (m_dm m') ∧ fds_open m'.
Proof.
  intros Hinv Hopen Hrun Hfd.
  destruct (os_files (m_os m) !! path) as [st|] eqn:Hst; last first.
  { rewrite open_file_not_found in Hrun; [done|]. intros ?. by rewrite Hst. }
  destruct (i_kind st) eqn:Hkind; last first.
  { rewrite open_file_not_found in Hrun; [done|]. intros ?. rewrite Hst. congruence. }
  destruct (path2fd_ (m_dm m) !! path) as [fd0|] eqn:Hp.
  { rewrite (open_file_already_open _ _ _ _ Hst Hkind Hp) in Hrun.
    by simplify_eq. }
  rewrite (open_file_fresh _ _ _ Hst Hkind Hp) in Hrun. simpl in Hrun.
  destruct (sys_open_cases path (m_os m)) as [Hfail|(fd1 & Hpos & Hfree & Hok)].
  { rewrite Hfail in Hrun. simpl in Hrun. simplify_eq. lia. }
  rewrite Hok in Hrun. simpl in Hrun. simplify_eq. simpl.
  assert (fd2path_ (m_dm m) !! fd = None) as Hnew.
  { destruct (fd2path_ (m_dm m) !! fd) as [q|] eqn:Hq; [|done].
    apply Hopen in Hq as [? ?]. congruence. }
  split.
  - intros p h. simpl. rewrite !lookup_insert_Some. split.
    + intros [[-> ->]|[Hne Hl]]; [by left|]. right. apply Hinv in Hl.
      split; [|done]. intros ->. congruence.
    + intros [[-> ->]|[Hne Hl]]; [by left|]. right. apply Hinv in Hl.
      split; [|done]. intros ->. congruence.
  - intros h p. simpl. rewrite lookup_insert_Some.
    intros [[-> ->]|[Hne Hl]].
    + rewrite lookup_insert_eq. eauto.
    + rewrite lookup_insert_ne by done. eauto.
Qed.

(** C3 (defect): [open_file] stores what [open] returned without checking
    it.  Two regular files that cannot be opened read/write both get the
    handle -1: both paths are in the path-to-handle map, the handle-to-path
    map has one of them only, and the two maps are no longer inverses. *)
Theorem open_file_unchecked_open_breaks_table :
  let m := ((open_file "a.tbl";; open_file "b.tbl") m_read_only).1 in
  path2fd_ (m_dm m) !! "a.tbl" = Some (-1) ∧
  path2fd_ (m_dm m) !! "b.tbl" = Some (-1) ∧
  fd2path_ (m_dm m) !! (-1) = Some "b.tbl" ∧
  ¬ oft_inv (m_dm m).
Proof.
  assert (((open_file "a.tbl";; open_file "b.tbl") m_read_only).1 =
          mk_machine (m_os m_read_only)
            (mk_DiskManager {[ "a.tbl" := -1; "b.tbl" := -1 ]} {[ -1 := "b.tbl" ]}
               (-1) (replicate 16 0))) as ->.
  { vm_compute. reflexivity. }
  simpl. split_and!; try by vm_compute.
  intros Hinv. specialize (Hinv "a.tbl" (-1)). simpl in Hinv.
  assert (({[ -1 := "b.tbl" ]} : gmap Z string) !! (-1) = Some "a.tbl") as Hbad.
  { apply Hinv. by vm_compute. }
  vm_compute in Hbad. discriminate.
Qed.

(** C8: a regular file opened twice gets the same handle both times; one
    [close_file] takes the path and the handle out of the table, a second
    one throws [FileNotOpenError]; [open_file] of a path that is no regular
    file throws [FileNotFoundError]. *)
Theorem open_twice_close_twice (path : string) (m : machine) (st : inode) :
  oft_inv (m_dm m) →
  os_files (m_os m) !! path = Some st →
  i_kind st = S_IFREG →
  (∃ fd m1 m2,
     open_file path m = (m1, inr fd) ∧
     open_file path m1 = (m1, inr fd) ∧
     close_file fd m1 = (m2, inr tt) ∧
     path2fd_ (m_dm m2) !! path = None ∧
     fd2path_ (m_dm m2) !! fd = None ∧
     close_file fd m2 = (m2, inl (FileNotOpenError fd))) ∧
  (∀ other : string,
     (∀ st', os_files (m_os m) !! other = Some st' → i_kind st' = S_IFDIR) →
     open_file other m = (m, inl (FileNotFoundError other))).
Proof.
  intros Hinv Hst Hreg. split; [|intros other Hno; by apply open_file_not_found].
  destruct (path2fd_ (m_dm m) !! path) as [fd|] eqn:Hp.
  - pose proof (open_file_already_open _ _ _ _ Hst Hreg Hp) as Hopen.
    assert (fd2path_ (m_dm m) !! fd = Some path) as Hfd by by apply Hinv.
    eexists fd, m, _. do 2 (split; [exact Hopen|]).
    split; [by apply close_file_open|]. simpl.
    rewrite !lookup_delete_eq. do 2 (split; [done|]).
    apply close_file_not_open. simpl. apply lookup_delete_eq.
  - pose proof (open_file_fresh _ _ _ Hst Hreg Hp) as Hopen. simpl in Hopen.
    eexists _, _, _. split; [exact Hopen|]. split.
    { eapply open_file_already_open; simpl.
      - by rewrite sys_open_files.
      - done.
      - apply lookup_insert_eq. }
    split; [apply close_file_open; simpl; apply lookup_insert_eq|]. simpl.
    rewrite !lookup_delete_eq. do 2 (split; [done|]).
    apply close_file_not_open. simpl. apply lookup_delete_eq.
Qed.

Lemma open_twice_close_twice_witness :
  (∃ fd m1 m2,
     open_file "t.tbl" (m_small 65536) = (m1, inr fd) ∧
     open_file "t.tbl" m1 = (m1, inr fd) ∧
     close_file fd m1 = (m2, inr tt) ∧
     path2fd_ (m_dm m2) !! "t.tbl" = None ∧
     fd2path_ (m_dm m2) !! fd = None ∧
     close_file fd m2 = (m2, inl (FileNotOpenError fd))) ∧
  (∀ other : string,
     (∀ st', os_files (m_os (m_small 65536)) !! other = Some st' → i_kind st' = S_IFDIR) →
     open_file other (m_small 65536) = (m_small 65536, inl (FileNotFoundError other))).
Proof.
  apply (open_twice_close_twice "t.tbl" (m_small 65536)
           (mk_inode S_IFREG true [b 1; b 2; b 3])).
  - intros p fd. vm_compute. split; intros; discriminate.
  - vm_compute. reflexivity.
  - reflexivity.
Defined.

Lemma fds_open_close_file (fd : Z) (m : machine) :
  fds_open m → fds_open (close_file fd m).1.
Proof.
  intros Hopen.
  destruct (fd2path_ (m_dm m) !! fd) as [path|] eqn:Hfd.
  - rewrite (close_file_open _ _ _ Hfd). intros h p. simpl.
    rewrite lookup_delete_Some. intros [Hne Hh].
    apply Hopen in Hh. unfold sys_close.
    destruct (os_fds (m_os m) !! fd); [|done]. simpl.
    by rewrite lookup_delete_ne.
  - by rewrite (close_file_not_open _ _ Hfd).
Qed.

Lemma open_file_throws (path : string) (m m' : machine) (e : exn) :
  open_file path m = (m', inl e) → m' = m.
Proof.
  intros Hrun.
  destruct (os_files (m_os m) !! path) as [st|] eqn:Hst; last first.
  { rewrite open_file_not_found in Hrun; [by simplify_eq|].
    intros ?. by rewrite Hst. }
  destruct (i_kind st) eqn:Hkind; last first.
  { rewrite open_file_not_found in Hrun; [by simplify_eq|].
    intros ?. rewrite Hst. congruence. }
  destruct (path2fd_ (m_dm m) !! path) as [fd0|] eqn:Hp.
  - by rewrite (open_file_already_open _ _ _ _ Hst Hkind Hp) in Hrun.
  - by rewrite (open_file_fresh _ _ _ Hst Hkind Hp) in Hrun.
Qed.

(** As long as no [open] fails, the table stays sound through any
    sequence of [open_file] and [close_file]. *)
Lemma oft_inv_run_ops (ops : list table_op) (m : machine) :
  oft_inv (m_dm m) → fds_open m →
  (run_ops ops m).2 = true →
  oft_inv (m_dm (run_ops ops m).1).
Proof.
  revert m. induction ops as [|[path|fd] ops IH]; intros m Hinv Hopen Hok.
  - done.
  - simpl in *. destruct (open_file path m) as [m' [e|fd]] eqn:Hrun.
    + apply open_file_throws in Hrun as ->. by apply IH.
    + simpl in *. apply andb_true_iff in Hok as [Hfd Hok].
      apply Z.leb_le in Hfd.
      destruct (oft_inv_open_file _ _ _ _ Hinv Hopen Hrun Hfd). by apply IH.
  - simpl in *. apply IH; [|by apply fds_open_close_file|done].
    by apply oft_inv_close_file.
Qed.

(** ** The log file: lazy opening *)

Lemma open_log_opened (LOG : string) (m : machine) :
  log_fd_ (m_dm m) ≠ -1 → open_log LOG m = (m, inr tt).
Proof.
  intros Hfd. unfold open_log. run.
  by destruct (Z.eqb_spec (log_fd_ (m_dm m)) (-1)).
Qed.

Lemma open_log_not_found (LOG : string) (m : machine) :
  log_fd_ (m_dm m) = -1 →
  (∀ st, os_files (m_os m) !! LOG = Some st → i_kind st = S_IFDIR) →
  open_log LOG m = (m, inl (FileNotFoundError LOG)).
Proof.
  intros Hfd Hno. unfold open_log. run. rewrite Hfd. simpl.
  by rewrite (open_file_not_found _ _ Hno).
Qed.

(** C10: with the log file not yet opened and no regular file of its name
    on disk, [ReadLog] and [WriteLog] both throw [FileNotFoundError] and
    leave everything as it was: [ReadLog] does not return [false] and
    [WriteLog] creates no file. *)
Theorem log_file_missing (LOG : string) (m : machine)
    (log_data : list byte) (size offset prev_log_end : Z) :
  log_fd_ (m_dm m) = -1 →
  (∀ st, os_files (m_os m) !! LOG = Some st → i_kind st = S_IFDIR) →
  ReadLog LOG log_data size offset prev_log_end m = (m, inl (FileNotFoundError LOG)) ∧
  WriteLog LOG log_data size m = (m, inl (FileNotFoundError LOG)).
Proof.
  intros Hfd Hno. pose proof (open_log_not_found LOG m Hfd Hno) as Hlog.
  unfold ReadLog, WriteLog. split.
  - unfold mbind, M_bind, bind. by rewrite Hlog.
  - unfold mbind, M_bind, bind. by rewrite Hlog.
Qed.

Lemma log_file_missing_witness :
  ReadLog "wal.log" [b 0; b 0] 2 0 0 (m_small 65536)
    = (m_small 65536, inl (FileNotFoundError "wal.log")) ∧
  WriteLog "wal.log" [b 0; b 0] 2 (m_small 65536)
    = (m_small 65536, inl (FileNotFoundError "wal.log")).
Proof.
  apply (log_file_missing "wal.log" (m_small 65536) [b 0; b 0] 2 0 0).
  - reflexivity.
  - intros st Hst. vm_compute in Hst. discriminate.
Defined.

(** ** Page numbers *)

Lemma AllocatePage_run (MAX_FD fd c : Z) (m : machine) :
  0 ≤ fd < MAX_FD →
  fd2pageno_ (m_dm m) !! Z.to_nat fd = Some c →
  AllocatePage MAX_FD fd m = (set_pageno fd (wrap_int (c + 1)) m, inr c).
Proof.
  intros Hfd Hc. unfold AllocatePage. run.
  assert ((0 <=? fd) && (fd <? MAX_FD) = true) as ->.
  { apply andb_true_iff. split; [apply Z.leb_le|apply Z.ltb_lt]; lia. }
  run. by rewrite Hc.
Qed.

Lemma set_pageno_lookup (fd v : Z) (m : machine) (c : Z) :
  fd2pageno_ (m_dm m) !! Z.to_nat fd = Some c →
  fd2pageno_ (m_dm (set_pageno fd v m)) !! Z.to_nat fd = Some v.
Proof.
  intros Hc. simpl. apply list_lookup_insert_eq. by eapply lookup_lt_Some.
Qed.

Lemma set_pageno_twice (fd v v' : Z) (m : machine) :
  set_pageno fd v' (set_pageno fd v m) = set_pageno fd v' m.
Proof. unfold set_pageno. simpl. by rewrite list_insert_insert_eq. Qed.

Lemma set_pageno_same (fd c : Z) (m : machine) :
  fd2pageno_ (m_dm m) !! Z.to_nat fd = Some c → set_pageno fd c m = m.
Proof.
  intros Hc. destruct m as [os [p2f f2p lfd pn]]. unfold set_pageno. simpl in *.
  by rewrite list_insert_id.
Qed.

Lemma allocate_pages_run (MAX_FD fd : Z) (k : nat) : ∀ (c : Z) (m : machine),
  0 ≤ fd < MAX_FD →
  fd2pageno_ (m_dm m) !! Z.to_nat fd = Some c →
  in_int c → c + Z.of_nat k ≤ INT_MAX + 1 →
  allocate_pages MAX_FD fd k m =
    (set_pageno fd (wrap_int (c + Z.of_nat k)) m, inr (seqZ c (Z.of_nat k))).
Proof.
  induction k as [|k IH]; intros c m Hfd Hc Hc_int Hhi.
  - simpl. run. rewrite Nat2Z.inj_0.
    by rewrite Z.add_0_r, wrap_int_id, (set_pageno_same _ _ _ Hc).
  - simpl. run. rewrite (AllocatePage_run _ _ _ _ Hfd Hc).
    destruct k as [|k].
    + simpl. run. change (Z.of_nat 1) with 1.
      by rewrite (seqZ_cons c) by lia.
    + assert (in_int (c + 1)) as Hc1.
      { unfold in_int, INT_MIN, INT_MAX in *. lia. }
      rewrite (wrap_int_id _ Hc1).
      rewrite (IH (c + 1)); [|done| |done|lia].
      * rewrite set_pageno_twice. f_equal; [f_equal; f_equal; lia|].
        f_equal. rewrite (seqZ_cons c) by lia. f_equal. f_equal; lia.
      * by eapply set_pageno_lookup.
Qed.

(** C7: [AllocatePage] returns the counter of the handle and increments
    it; [k] calls in a row return the [k] numbers [c], [c+1], ..,
    [c+k-1], each smaller than the next, where [c] is the counter before
    the first call; a new manager starts every counter at 0.  The counter is
    a 32-bit integer and the [k] numbers are within its range. *)
Theorem AllocatePage_counts (MAX_FD fd c : Z) (k : nat) (m : machine) :
  0 ≤ fd < MAX_FD →
  fd2pageno_ (m_dm m) !! Z.to_nat fd = Some c →
  in_int c →
  c + Z.of_nat k ≤ INT_MAX + 1 →
  AllocatePage MAX_FD fd m = (set_pageno fd (wrap_int (c + 1)) m, inr c) ∧
  (∃ ps : list Z,
     allocate_pages MAX_FD fd k m
       = (set_pageno fd (wrap_int (c + Z.of_nat k)) m, inr ps) ∧
     length ps = k ∧
     (∀ i : nat, (i < k)%nat → ps !! i = Some (c + Z.of_nat i)) ∧
     (∀ (i j : nat) (x y : Z),
        ps !! i = Some x → ps !! j = Some y → (i < j)%nat → x < y)) ∧
  fd2pageno_ (new_DiskManager MAX_FD) !! Z.to_nat fd = Some 0.
Proof.
  intros Hfd Hc Hc_int Hhi. split; [by apply AllocatePage_run|]. split.
  - exists (seqZ c (Z.of_nat k)). split; [by apply allocate_pages_run|].
    split; [by rewrite length_seqZ, Nat2Z.id|]. split.
    + intros i Hi. apply lookup_seqZ. lia.
    + intros i j x y Hx Hy Hij.
      apply lookup_seqZ in Hx as [-> _]. apply lookup_seqZ in Hy as [-> _]. lia.
  - unfold new_DiskManager. simpl. apply lookup_replicate. split; [done|lia].
Qed.

Lemma AllocatePage_counts_witness :
  AllocatePage 16 3 (m_small 65536)
    = (set_pageno 3 (wrap_int (0 + 1)) (m_small 65536), inr 0) ∧
  (∃ ps : list Z,
     allocate_pages 16 3 3 (m_small 65536)
       = (set_pageno 3 (wrap_int (0 + Z.of_nat 3)) (m_small 65536), inr ps) ∧
     length ps = 3%nat ∧
     (∀ i : nat, (i < 3)%nat → ps !! i = Some (0 + Z.of_nat i)) ∧
     (∀ (i j : nat) (x y : Z),
        ps !! i = Some x → ps !! j = Some y → (i < j)%nat → x < y)) ∧
  fd2pageno_ (new_DiskManager 16) !! Z.to_nat 3 = Some 0.
Proof.
  apply (AllocatePage_counts 16 3 0 3 (m_small 65536)).
  - lia.
  - reflexivity.
  - unfold in_int, INT_MIN, INT_MAX. lia.
  - unfold INT_MAX. simpl. lia.
Defined.

(** ** Page input and output *)

(** C2 (defect): [Read] and [Write] throw only when the system call
    returns a negative value.  A page read of 4 bytes from a 3-byte file
    transfers 3 bytes, and a page write of 4 bytes to a file that may grow
    to 2 bytes only stores 2 bytes: both return without an exception. *)
Theorem short_page_transfer_returns_normally :
  ((fd ← open_file "t.tbl"; read_page 4096 fd 0 [b 0; b 0; b 0; b 0] 4)
     (m_small 65536)).2 = inr [b 1; b 2; b 3; b 0] ∧
  (let r := (fd ← open_file "t.tbl"; write_page 4096 fd 0 [b 9; b 8; b 7; b 6] 4)
              (m_small 2) in
   r.2 = inr tt ∧
   i_data <$> os_files (m_os r.1) !! "t.tbl" = Some [b 9; b 8; b 3]).
Proof. vm_compute. done. Qed.

Lemma sys_lseek_set (fd offset : Z) (os : OS) (d : ofd) :
  os_fds os !! fd = Some d → 0 ≤ offset →
  sys_lseek fd offset SEEK_SET os
    = (set_fds os (<[fd := mk_ofd (ofd_path d) offset]> (os_fds os)), offset).
Proof.
  intros Hd Hoff. unfold sys_lseek. rewrite Hd.
  by destruct (Z.ltb_spec offset 0); [lia|].
Qed.

Lemma sys_read_run (fd count : Z) (buf : list byte) (os : OS) (d : ofd) (f : inode) :
  count ≤ SSIZE_MAX →
  os_fds os !! fd = Some d →
  os_files os !! ofd_path d = Some f →
  let got := take (Z.to_nat count) (drop (Z.to_nat (ofd_pos d)) (i_data f)) in
  (length got ≤ length buf)%nat →
  sys_read fd buf count os
    = (set_fds os (<[fd := mk_ofd (ofd_path d) (ofd_pos d + Z.of_nat (length got))]>
                     (os_fds os)),
       (Z.of_nat (length got), got ++ drop (length got) buf)).
Proof.
  intros Hcount Hd Hf got Hfit. unfold sys_read. rewrite Hd, Hf.
  destruct (Z.ltb_spec SSIZE_MAX count); [lia|].
  fold got. by rewrite bool_decide_eq_true_2.
Qed.

Lemma sys_write_all (fd count : Z) (buf : list byte) (os : OS) (d : ofd) (f : inode) :
  os_fds os !! fd = Some d →
  os_files os !! ofd_path d = Some f →
  0 < count → count ≤ Z.of_nat (length buf) →
  ofd_pos d + count ≤ os_fsize os →
  sys_write fd buf count os
    = (mk_OS (<[ofd_path d :=
                  mk_inode (i_kind f) (i_rw f)
                    (write_at (i_data f) (Z.to_nat (ofd_pos d))
                       (take (Z.to_nat count) buf))]> (os_files os))
             (<[fd := mk_ofd (ofd_path d) (ofd_pos d + count)]> (os_fds os))
             (os_nofile os) (os_fsize os),
       count).
Proof.
  intros Hd Hf Hpos Hbuf Hroom. unfold sys_write. rewrite Hd, Hf.
  destruct (Z.ltb_spec (Z.of_nat (length buf)) count); [lia|].
  destruct (Z.eqb_spec count 0); [lia|].
  destruct (Z.leb_spec (os_fsize os - ofd_pos d) 0); [lia|].
  by rewrite Z.min_l by lia.
Qed.

Lemma drop_write_at (content bytes : list byte) (pos : nat) :
  drop pos (write_at content pos bytes)
    = bytes ++ drop (pos + length bytes) content.
Proof.
  unfold write_at. rewrite app_assoc.
  rewrite drop_app_length'; [done|].
  rewrite length_app, length_take, length_replicate. lia.
Qed.

Lemma read_back_write_at (content bytes : list byte) (pos : nat) :
  take (length bytes) (drop pos (write_at content pos bytes)) = bytes.
Proof. by rewrite drop_write_at, take_app_length. Qed.

Section Pages.

Variable PAGE_SIZE : Z.

Lemma page_offset_exact (page_no : Z) :
  0 ≤ page_no * PAGE_SIZE ≤ INT_MAX →
  wrap_int (page_no * PAGE_SIZE) = page_no * PAGE_SIZE.
Proof. intros ?. apply wrap_int_id. unfold in_int, INT_MIN. lia. Qed.

(** [write_page] on an open descriptor with room for the bytes. *)
Lemma write_page_run (m : machine) (fd page_no n : Z) (bytes : list byte)
    (d : ofd) (f : inode) :
  os_fds (m_os m) !! fd = Some d →
  os_files (m_os m) !! ofd_path d = Some f →
  0 ≤ page_no * PAGE_SIZE ≤ INT_MAX →
  0 ≤ n ≤ PAGE_SIZE → n ≤ INT_MAX →
  n ≤ Z.of_nat (length bytes) →
  page_no * PAGE_SIZE + n ≤ os_fsize (m_os m) →
  ∃ (m' : machine) (d' : ofd) (f' : inode),
    write_page PAGE_SIZE fd page_no bytes n m = (m', inr tt) ∧
    m_dm m' = m_dm m ∧
    os_fds (m_os m') !! fd = Some d' ∧ ofd_path d' = ofd_path d ∧
    os_files (m_os m') !! ofd_path d = Some f' ∧
    take (Z.to_nat n) (drop (Z.to_nat (page_no * PAGE_SIZE)) (i_data f'))
      = take (Z.to_nat n) bytes.
Proof.
  intros Hd Hf Hoff Hn Hn_int Hlen Hroom.
  unfold write_page, Lseek, Write. run.
  destruct (Z.leb_spec n PAGE_SIZE) as [_|]; [|lia]. run.
  rewrite (page_offset_exact _ Hoff), (to_size_t_id n) by lia.
  rewrite (sys_lseek_set _ _ _ _ Hd) by lia.
  destruct (Z.ltb_spec (page_no * PAGE_SIZE) 0) as [|_]; [lia|]. simpl.
  destruct (Z.eq_dec n 0) as [->|Hn0].
  - unfold sys_write. simpl. rewrite lookup_insert_eq. simpl. rewrite Hf.
    destruct (Z.ltb_spec (Z.of_nat (length bytes)) 0); [lia|]. simpl.
    eexists _, _, f. split; [done|]. simpl. rewrite lookup_insert_eq.
    by rewrite !take_0.
  - erewrite sys_write_all;
      [|by apply lookup_insert_eq|simpl; exact Hf|lia|lia|simpl; lia]. simpl.
    destruct (Z.ltb_spec n 0); [lia|]. simpl.
    eexists _, _, _. split; [done|]. simpl. rewrite !lookup_insert_eq.
    split_and!; try done. simpl.
    assert (Z.to_nat n = length (take (Z.to_nat n) bytes)) as Hk.
    { rewrite length_take. lia. }
    rewrite Hk at 1. apply read_back_write_at.
Qed.

(** [read_page] on an open descriptor and a buffer of at least [n] bytes. *)
Lemma read_page_run (m : machine) (fd page_no n : Z) (buf : list byte)
    (d : ofd) (f : inode) :
  os_fds (m_os m) !! fd = Some d →
  os_files (m_os m) !! ofd_path d = Some f →
  0 ≤ page_no * PAGE_SIZE ≤ INT_MAX →
  0 ≤ n ≤ PAGE_SIZE → n ≤ INT_MAX →
  n ≤ Z.of_nat (length buf) →
  let got := take (Z.to_nat n) (drop (Z.to_nat (page_no * PAGE_SIZE)) (i_data f)) in
  ∃ m' : machine,
    read_page PAGE_SIZE fd page_no buf n m = (m', inr (got ++ drop (length got) buf)) ∧
    m_dm m' = m_dm m ∧
    os_files (m_os m') = os_files (m_os m).
Proof.
  intros Hd Hf Hoff Hn Hn_int Hlen got.
  unfold read_page, Lseek, Read. run.
  destruct (Z.leb_spec n PAGE_SIZE) as [_|]; [|lia]. run.
  rewrite (page_offset_exact _ Hoff), (to_size_t_id n) by lia.
  rewrite (sys_lseek_set _ _ _ _ Hd) by lia.
  destruct (Z.ltb_spec (page_no * PAGE_SIZE) 0) as [|_]; [lia|]. simpl.
  erewrite sys_read_run;
    [|unfold SSIZE_MAX, INT_MAX in *; lia|by apply lookup_insert_eq|simpl; exact Hf|];
    simpl.
  - fold got. destruct (Z.ltb_spec (Z.of_nat (length got)) 0); [lia|].
    by eexists.
  - rewrite length_take. lia.
Qed.

(** C9: [write_page] of [n] bytes followed by [read_page] of [n] bytes of
    the same page returns the bytes written; both address the file offset
    [page_no * PAGE_SIZE].  The handle is an open descriptor, the two
    buffers hold [n] bytes, and the file may grow to the end of the
    bytes. *)
Theorem write_page_read_page (m : machine) (fd page_no n : Z)
    (bytes buf : list byte) (d : ofd) (f : inode) :
  os_fds (m_os m) !! fd = Some d →
  os_files (m_os m) !! ofd_path d = Some f →
  0 ≤ page_no * PAGE_SIZE ≤ INT_MAX →
  0 ≤ n ≤ PAGE_SIZE → n ≤ INT_MAX →
  n ≤ Z.of_nat (length bytes) →
  n ≤ Z.of_nat (length buf) →
  page_no * PAGE_SIZE + n ≤ os_fsize (m_os m) →
  ∃ (m' : machine) (buf' : list byte) (f' : inode),
    (write_page PAGE_SIZE fd page_no bytes n;;
     read_page PAGE_SIZE fd page_no buf n) m = (m', inr buf') ∧
    take (Z.to_nat n) buf' = take (Z.to_nat n) bytes ∧
    drop (Z.to_nat n) buf' = drop (Z.to_nat n) buf ∧
    os_files (m_os m') !! ofd_path d = Some f' ∧
    take (Z.to_nat n) (drop (Z.to_nat (page_no * PAGE_SIZE)) (i_data f'))
      = take (Z.to_nat n) bytes.
Proof.
  intros Hd Hf Hoff Hn Hn_int Hbytes Hbuf Hroom.
  destruct (write_page_run m fd page_no n bytes d f)
    as (m1 & d1 & f1 & Hw & Hdm & Hd1 & Hpath & Hf1 & Hdata); try done.
  rewrite <- Hpath in Hf1.
  destruct (read_page_run m1 fd page_no n buf d1 f1)
    as (m2 & Hr & Hdm2 & Hfiles); try done.
  rewrite Hdata in Hr.
  assert (length (take (Z.to_nat n) bytes) = Z.to_nat n) as Hk.
  { rewrite length_take. lia. }
  rewrite Hk in Hr.
  exists m2, (take (Z.to_nat n) bytes ++ drop (Z.to_nat n) buf), f1.
  split.
  { unfold mbind, M_bind, bind. by rewrite Hw. }
  split; [by rewrite take_app_length'|].
  split; [by rewrite drop_app_length'|].
  split; [by rewrite Hfiles, <- Hpath|done].
Qed.

End Pages.

Lemma write_page_read_page_witness :
  ∃ (m' : machine) (buf' : list byte) (f' : inode),
    (write_page 4096 0 1 [b 9; b 8] 2;;
     read_page 4096 0 1 [b 0; b 0; b 0] 2) m_opened = (m', inr buf') ∧
    take (Z.to_nat 2) buf' = take (Z.to_nat 2) [b 9; b 8] ∧
    drop (Z.to_nat 2) buf' = drop (Z.to_nat 2) [b 0; b 0; b 0] ∧
    os_files (m_os m') !! ofd_path (mk_ofd "t.tbl" 0) = Some f' ∧
    take (Z.to_nat 2) (drop (Z.to_nat (1 * 4096)) (i_data f'))
      = take (Z.to_nat 2) [b 9; b 8].
Proof.
  apply (write_page_read_page 4096 m_opened 0 1 2 [b 9; b 8] [b 0; b 0; b 0]
           (mk_ofd "t.tbl" 0) (mk_inode S_IFREG true [b 1; b 2; b 3])).
  - vm_compute. reflexivity.
  - vm_compute. reflexivity.
  - unfold INT_MAX. lia.
  - lia.
  - unfold INT_MAX. lia.
  - simpl. lia.
  - simpl. lia.
  - vm_compute. discriminate.
Defined.

(** ** Reading the log *)

Lemma GetFileSize_run (path : string) (m : machine) (f : inode) :
  os_files (m_os m) !! path = Some f →
  Z.of_nat (length (i_data f)) ≤ INT_MAX →
  GetFileSize path m = (m, inr (Z.of_nat (length (i_data f)))).
Proof.
  intros Hf Hlen. unfold GetFileSize, sys_stat. run. rewrite Hf.
  rewrite wrap_int_id; [done|]. unfold in_int, INT_MIN. lia.
Qed.



(** The three outcomes on the small machine: two bytes from position 2 of
    the five-byte log, no data at position 5, and [UnixError] once the log
    descriptor has been closed behind the manager's back. *)
Example ReadLog_outcomes :
  (ReadLog "db.log" [b 0; b 0; b 0] 2 1 1 m_logging).2
    = inr (true, [b 12; b 13; b 0]) ∧
  (ReadLog "db.log" [b 0; b 0; b 0] 2 4 1 m_logging).2
    = inr (false, [b 0; b 0; b 0]) ∧
  ((close_file 0;; ReadLog "db.log" [b 0; b 0; b 0] 2 1 1) m_logging).2
    = inl UnixError.
Proof. vm_compute. done. Qed.

(** ** The delete executor *)

Ltac erun :=
  repeat progress
    unfold index_handle, at_, lift, get_world, log, put_fh, put_ih, put_txn,
      mbind, M_bind, bind, mret, M_ret, ret, throw in *;
  simpl in *.

Section DeleteExecutorProperties.

Context {File Ix : Type} `{!RmFileHandle File} `{!IxIndexHandle Ix}.

Implicit Types (ex : DeleteExecutor) (w : world (File := File) (Ix := Ix)).

Lemma delete_from_index_skip ex rec i col w :
  index col = false → delete_from_index ex rec i col w = (w, inr tt).
Proof. intros Hcol. unfold delete_from_index. rewrite Hcol. reflexivity. Qed.

Lemma delete_from_index_run ex rec i col w :
  index col = true →
  delete_from_index ex rec i col w =
    match ihs_ (w_sm w) !! (ex_tab_name_ ex, i) with
    | None => (w, inl OutOfRange)
    | Some ih =>
        match delete_entry ih (drop (offset col) (data rec)) (w_txn w) with
        | inl e => (w, inl e)
        | inr ih' => (with_index ex i ih' (drop (offset col) (data rec)) w, inr tt)
        end
    end.
Proof.
  intros Hcol. unfold delete_from_index. rewrite Hcol. erun.
  destruct (ihs_ (w_sm w) !! (ex_tab_name_ ex, i)) as [ih|]; [|done]. simpl.
  by destruct (delete_entry ih (drop (offset col) (data rec)) (w_txn w)).
Qed.

(** The loop over the columns touches the index handles and the log of
    events only; the events it adds are the deletions of the schedule, all
    of them if it returns and the first few if it throws. *)
Lemma column_loop_calls ex rec (cs : list ColMeta) : ∀ (i : nat) w,
  let r := for_each_from i (delete_from_index ex rec) cs w in
  w_txn r.1 = w_txn w ∧
  fhs_ (w_sm r.1) = fhs_ (w_sm w) ∧
  ∃ t : list event,
    w_calls r.1 = w_calls w ++ t ∧
    t `prefix_of` index_events (ex_tab_name_ ex) rec i cs ∧
    (r.2 = inr tt → t = index_events (ex_tab_name_ ex) rec i cs).
Proof.
  induction cs as [|c cs IH]; intros i w; simpl.
  - split_and!; try done. exists []. by rewrite app_nil_r.
  - unfold mbind, M_bind, bind. destruct (index c) eqn:Hcol.
    + rewrite (delete_from_index_run _ _ _ _ _ Hcol).
      destruct (ihs_ (w_sm w) !! (ex_tab_name_ ex, i)) as [ih|]; last first.
      { simpl. split_and!; try done. exists []. rewrite app_nil_r.
        split_and!; [done|apply prefix_nil|done]. }
      destruct (delete_entry ih _ (w_txn w)) as [e|ih'].
      { simpl. split_and!; try done. exists []. rewrite app_nil_r.
        split_and!; [done|apply prefix_nil|done]. }
      destruct (IH (S i) (with_index ex i ih' (drop (offset c) (data rec)) w))
        as (Htxn & Hfhs & t & Hcalls & Hpre & Hall).
      split_and!; try done.
      exists (EvDeleteEntry (ex_tab_name_ ex) i (drop (offset c) (data rec)) :: t).
      split_and!.
      * rewrite Hcalls. simpl. by rewrite <- app_assoc.
      * simpl. by apply prefix_cons.
      * intros Hok. simpl. by rewrite (Hall Hok).
    + rewrite (delete_from_index_skip _ _ _ _ _ Hcol). simpl. apply IH.
Qed.

Lemma delete_rid_run ex rid w :
  delete_rid ex rid w =
    match fhs_ (w_sm w) !! fh_ ex with
    | None => (w, inl OutOfRange)
    | Some fh =>
        match get_record fh rid with
        | inl e => (w, inl e)
        | inr rec =>
            match for_each_from 0%nat (delete_from_index ex rec) (cols (tab_ ex))
                    (add_call (EvGetRecord rid rec) w) with
            | (w2, inl e) => (w2, inl e)
            | (w2, inr _) =>
                match fhs_ (w_sm w2) !! fh_ ex with
                | None => (w2, inl OutOfRange)
                | Some fh2 =>
                    match delete_record fh2 rid with
                    | inl e => (w2, inl e)
                    | inr fh' => (with_row_deleted ex rid rec fh' w2, inr tt)
                    end
                end
            end
        end
    end.
Proof.
  unfold delete_rid. erun.
  destruct (fhs_ (w_sm w) !! fh_ ex) as [fh|]; [|done]. simpl.
  destruct (get_record fh rid) as [e|rec]; [done|]. simpl.
  destruct (for_each_from 0%nat (delete_from_index ex rec) (cols (tab_ ex)) _)
    as [w2 [e|[]]]; [done|].
  destruct (fhs_ (w_sm w2) !! fh_ ex) as [fh2|]; [|done]. simpl.
  by destruct (delete_record fh2 rid).
Qed.

(** One row: the events added are those of the row's schedule, cut short
    where an exception was thrown; when the row is done the heap file has
    lost the row and the transaction has gained its write record. *)
Lemma delete_rid_calls ex rid w :
  let r := delete_rid ex rid w in
  let tab := ex_tab_name_ ex in
  (is_Some (fhs_ (w_sm w) !! fh_ ex) ∨ r.1 = w) ∧
  ((∃ e, r.2 = inl e ∧ r.1 = w) ∨
   (∃ (fh : File) (rec : RmRecord) (t : list event),
      fhs_ (w_sm w) !! fh_ ex = Some fh ∧
      get_record fh rid = inr rec ∧
      w_calls r.1 = w_calls w ++ t ∧
      t `prefix_of` row_events tab (cols (tab_ ex)) (rid, rec) ∧
      (∀ e, r.2 = inl e → w_txn r.1 = w_txn w) ∧
      (r.2 = inr tt →
         t = row_events tab (cols (tab_ ex)) (rid, rec) ∧
         w_txn r.1 = AppendWriteRecord (delete_record_of tab rid rec) (w_txn w) ∧
         ∃ fh', delete_record fh rid = inr fh' ∧
                fhs_ (w_sm r.1) = <[fh_ ex := fh']> (fhs_ (w_sm w))))).
Proof.
  intros r tab. subst r. rewrite delete_rid_run.
  destruct (fhs_ (w_sm w) !! fh_ ex) as [fh|] eqn:Hfh; last first.
  { split; [by right|]. left. by eexists. }
  split; [left; by eexists|].
  destruct (get_record fh rid) as [e|rec] eqn:Hget.
  { left. by eexists. }
  right. exists fh, rec.
  pose proof (column_loop_calls ex rec (cols (tab_ ex)) 0%nat
                (add_call (EvGetRecord rid rec) w)) as Hloop.
  simpl in Hloop.
  destruct (for_each_from 0%nat (delete_from_index ex rec) (cols (tab_ ex)) _)
    as [w2 [e|[]]]; simpl in Hloop;
    destruct Hloop as (Htxn & Hfhs & t & Hcalls & Hpre & Hall).
  { exists (EvGetRecord rid rec :: t). split_and!; try done.
    - simpl. rewrite Hcalls. by rewrite <- app_assoc.
    - unfold row_events. simpl. apply prefix_cons.
      etrans; [exact Hpre|]. by apply prefix_app_r. }
  specialize (Hall eq_refl). subst t.
  rewrite Hfhs. simpl. rewrite Hfh.
  destruct (delete_record fh rid) as [e|fh'] eqn:Hdel; simpl.
  { exists (EvGetRecord rid rec :: index_events tab rec 0 (cols (tab_ ex))).
    split_and!; try done.
    - rewrite Hcalls. by rewrite <- app_assoc.
    - unfold row_events. simpl. apply prefix_cons. by apply prefix_app_r. }
  exists (row_events tab (cols (tab_ ex)) (rid, rec)).
  split_and!; try done.
  - rewrite Hcalls. unfold row_events. simpl. by rewrite <- !app_assoc.
  - intros _. split_and!; try done.
    + by rewrite Htxn.
    + exists fh'. split; [done|]. by rewrite Hfhs.
Qed.

Lemma get_all_index_files_world ex w : (get_all_index_files ex w).1 = w.
Proof.
  unfold get_all_index_files. generalize 0%nat.
  induction (cols (tab_ ex)) as [|c cs IH]; intros i; [done|]. simpl.
  unfold mbind, M_bind, bind. destruct (index c).
  - erun. destruct (ihs_ (w_sm w) !! (ex_tab_name_ ex, i)); [|done]. apply IH.
  - apply IH.
Qed.

Lemma schedule_cons (tab : string) (cs : list ColMeta) (row : Rid * RmRecord)
    (rows : list (Rid * RmRecord)) :
  schedule tab cs (row :: rows) = row_events tab cs row ++ schedule tab cs rows.
Proof. done. Qed.

(** The loop over the row identifiers. *)
Lemma rid_loop_calls ex (rids : list Rid) : ∀ w,
  let r := for_each (delete_rid ex) rids w in
  let tab := ex_tab_name_ ex in
  ∃ (recs : list RmRecord) (t : list event),
    w_calls r.1 = w_calls w ++ t ∧
    t `prefix_of` schedule tab (cols (tab_ ex)) (zip rids recs) ∧
    (r.2 = inr tt →
       length recs = length rids ∧
       t = schedule tab (cols (tab_ ex)) (zip rids recs) ∧
       write_set_ (w_txn r.1)
         = write_set_ (w_txn w) ++ zip_with (delete_record_of tab) rids recs ∧
       ∀ fh, fhs_ (w_sm w) !! fh_ ex = Some fh → fetched fh rids recs).
Proof.
  induction rids as [|rid rids IH]; intros w; simpl.
  - exists [], []. rewrite !app_nil_r. by split_and!.
  - unfold mbind, M_bind, bind.
    destruct (delete_rid_calls ex rid w) as [_ Hrow]. simpl in Hrow.
    destruct (delete_rid ex rid w) as [w1 [e|[]]] eqn:Hrun; simpl in *.
    + destruct Hrow as [(e' & _ & ->)|(fh & rec & t & _ & _ & Hcalls & Hpre & _)].
      * exists [], []. rewrite app_nil_r. by split_and!.
      * exists [rec], t. split_and!; try done.
        simpl. rewrite schedule_cons. etrans; [exact Hpre|]. by apply prefix_app_r.
    + destruct Hrow as [(e' & ? & _)|(fh & rec & t & Hfh & Hget & Hcalls & _ & _ & Hdone)];
        [done|].
      destruct (Hdone eq_refl) as (-> & Htxn & fh' & Hdel & Hfhs).
      destruct (IH w1) as (recs & t' & Hcalls' & Hpre' & Hdone').
      exists (rec :: recs), (row_events (ex_tab_name_ ex) (cols (tab_ ex)) (rid, rec) ++ t').
      split_and!.
      * rewrite Hcalls', Hcalls. by rewrite <- app_assoc.
      * change (zip (rid :: rids) (rec :: recs)) with ((rid, rec) :: zip rids recs).
        rewrite schedule_cons. by apply prefix_app.
      * intros Hok. destruct (Hdone' Hok) as (Hlen & -> & Hws & Hfetched).
        split_and!.
        -- simpl. by rewrite Hlen.
        -- done.
        -- rewrite Hws, Htxn. simpl. by rewrite <- app_assoc.
        -- intros fh0 Hfh0. simplify_eq. split; [done|]. exists fh'.
           split; [done|]. apply Hfetched. rewrite Hfhs. apply lookup_insert_eq.
Qed.

Lemma Next_run ex w :
  Next ex w =
    match for_each (delete_rid ex) (rids_ ex) (get_all_index_files ex w).1 with
    | (w', r) =>
        match (get_all_index_files ex w).2 with
        | inl e => (w, inl e)
        | inr _ => (w', match r with inl e => inl e | inr _ => inr None end)
        end
    end.
Proof.
  unfold Next, mbind, M_bind, bind.
  pose proof (get_all_index_files_world ex w) as Hw.
  destruct (get_all_index_files ex w) as [w0 [e|[]]]; simpl in *; subst w0.
  - by destruct (for_each (delete_rid ex) (rids_ ex) w).
  - by destruct (for_each (delete_rid ex) (rids_ ex) w) as [w' [e|[]]].
Qed.

(** What a [Next] that returns has done to the transaction. *)
Lemma Next_returns ex w w' :
  Next ex w = (w', inr None) →
  ∃ recs : list RmRecord,
    length recs = length (rids_ ex) ∧
    write_set_ (w_txn w')
      = write_set_ (w_txn w) ++ zip_with (delete_record_of (ex_tab_name_ ex)) (rids_ ex) recs ∧
    ∀ fh, fhs_ (w_sm w) !! fh_ ex = Some fh → fetched fh (rids_ ex) recs.
Proof.
  rewrite Next_run, get_all_index_files_world. intros Hrun.
  destruct (rid_loop_calls ex (rids_ ex) w) as (recs & t & _ & _ & Hdone).
  simpl in Hdone.
  destruct (for_each (delete_rid ex) (rids_ ex) w) as [w1 [e|[]]];
    destruct (get_all_index_files ex w).2; simplify_eq.
  destruct (Hdone eq_refl) as (Hlen & _ & Hws & Hfetched). by exists recs.
Qed.

End DeleteExecutorProperties.

(** On the heap file of the model, the rows a batch fetches are the rows
    the heap file held under these row identifiers before the batch. *)
Lemma fetched_records (rids : list Rid) : ∀ (fh : HeapFile) (recs : list RmRecord),
  fetched fh rids recs →
  ∀ (i : nat) (rid : Rid) (rec : RmRecord),
    rids !! i = Some rid → recs !! i = Some rec → records fh !! rid = Some rec.
Proof.
  induction rids as [|r rids IH]; intros fh [|rc recs] Hf i rid rec Hrid Hrec;
    try done.
  simpl in Hf. destruct Hf as (Hget & fh' & Hdel & Hrest).
  destruct (records fh !! r) as [rc'|] eqn:Hr; [|done].
  destruct i as [|i]; simpl in *.
  - by simplify_eq.
  - simplify_eq. specialize (IH _ _ Hrest i rid rec Hrid Hrec). simpl in IH.
    by apply lookup_delete_Some in IH as [_ ?].
Qed.

(** C4: a [Next] that returns has appended one write record per row
    identifier to the write set of the transaction, in the order of the row
    identifiers: the [i]-th is a [DELETE_TUPLE] record with the name of the
    table, the [i]-th row identifier and the row that the heap file held
    under it before the batch. *)
Theorem Next_appends_write_records `{!IxIndexHandle Ix}
    (ex : DeleteExecutor) (w w' : world (File := HeapFile) (Ix := Ix)) :
  Next ex w = (w', inr None) →
  ∃ recs : list RmRecord,
    length recs = length (rids_ ex) ∧
    write_set_ (w_txn w')
      = write_set_ (w_txn w)
          ++ zip_with (mk_WriteRecord DELETE_TUPLE (ex_tab_name_ ex)) (rids_ ex) recs ∧
    length (write_set_ (w_txn w'))
      = (length (write_set_ (w_txn w)) + length (rids_ ex))%nat ∧
    ∀ (fh : HeapFile) (i : nat) (rid : Rid) (rec : RmRecord),
      fhs_ (w_sm w) !! fh_ ex = Some fh →
      rids_ ex !! i = Some rid → recs !! i = Some rec →
      records fh !! rid = Some rec.
Proof.
  intros Hrun. destruct (Next_returns ex w w' Hrun) as (recs & Hlen & Hws & Hf).
  exists recs. split_and!; try done.
  - rewrite Hws, length_app, length_zip_with. unfold delete_record_of. lia.
  - intros fh i rid rec Hfh. by apply fetched_records, Hf.
Qed.

(** ** Index entries *)

Lemma remove_key_None (key : list byte) (es : list (list byte * Rid)) :
  remove_key key es = None ↔ ∀ e, e ∈ es → e.1 ≠ key.
Proof.
  induction es as [|e es IH]; simpl.
  - split; [|done]. intros _ e He. by apply not_elem_of_nil in He.
  - unfold has_key. case_bool_decide as Hkey.
    + split; [done|]. intros Hall. destruct (Hall e); [left|done].
    + destruct (remove_key key es) as [r|].
      * split; [done|]. intros Hall.
        assert (Some r = None) as Hno; [|done].
        apply IH. intros e' He'. apply Hall. by right.
      * split; [|done]. intros _ e' [->|He']%elem_of_cons; [done|].
        by apply IH.
Qed.

Lemma remove_key_Some (key : list byte) (es es' : list (list byte * Rid)) :
  remove_key key es = Some es' →
  ∃ (before : list (list byte * Rid)) (rid : Rid) (after : list (list byte * Rid)),
    es = before ++ (key, rid) :: after ∧
    (∀ e, e ∈ before → e.1 ≠ key) ∧
    es' = before ++ after.
Proof.
  revert es'. induction es as [|[k r] es IH]; intros es'; simpl; [done|].
  unfold has_key. case_bool_decide as Hkey; simpl in Hkey.
  - intros [= <-]. subst k. exists [], r, es. split_and!; try done.
    intros e He. by apply not_elem_of_nil in He.
  - destruct (remove_key key es) as [rest|]; [|done]. intros [= <-].
    destruct (IH rest eq_refl) as (before & rid & after & -> & Hbefore & ->).
    exists ((k, r) :: before), rid, after. split_and!; try done.
    intros e [->|He]%elem_of_cons; [done|]. by apply Hbefore.
Qed.

Section IndexEntries.

Context {File : Type} `{!RmFileHandle File}.

Implicit Types (ex : DeleteExecutor) (w : world (File := File) (Ix := BTreeIndex)).

Lemma delete_from_index_by_key ex rec i col w (ih : BTreeIndex) :
  index col = true →
  ihs_ (w_sm w) !! (ex_tab_name_ ex, i) = Some ih →
  key_len ih = len col →
  delete_from_index ex rec i col w =
    match remove_key (col_bytes col rec) (entries ih) with
    | None => (w, inl IndexEntryNotFoundError)
    | Some es =>
        (add_call (EvDeleteEntry (ex_tab_name_ ex) i (drop (offset col) (data rec)))
           (set_ih (ex_tab_name_ ex) i (mk_BTreeIndex (key_len ih) es) w),
         inr tt)
    end.
Proof.
  intros Hcol Hih Hlen. rewrite (delete_from_index_run _ _ _ _ _ Hcol), Hih.
  simpl. rewrite Hlen. fold (col_bytes col rec).
  by destruct (remove_key (col_bytes col rec) (entries ih)).
Qed.

Lemma indexes_built_step ex w i c cs (ih' : BTreeIndex) (key : list byte) :
  indexes_built ex w i (c :: cs) →
  indexes_built ex
    (add_call (EvDeleteEntry (ex_tab_name_ ex) i key) (set_ih (ex_tab_name_ ex) i ih' w))
    (S i) cs.
Proof.
  intros Hbuilt j col Hj Hcol. destruct (Hbuilt (S j) col Hj Hcol) as (ih & Hih & Hlen).
  exists ih. split; [|done]. simpl. rewrite lookup_insert_ne by (intros [=]; lia).
  by rewrite <- Hih, Nat.add_succ_r.
Qed.

Lemma indexes_built_tail ex w i c cs :
  indexes_built ex w i (c :: cs) → indexes_built ex w (S i) cs.
Proof.
  intros Hbuilt j col Hj Hcol. destruct (Hbuilt (S j) col Hj Hcol) as (ih & Hih & Hlen).
  exists ih. by rewrite <- Hih, Nat.add_succ_r.
Qed.

(** An indexed column whose index has no entry with the key of the row
    makes the loop over the columns throw [IndexEntryNotFoundError]. *)
Lemma column_loop_key_absent ex rec (cs : list ColMeta) : ∀ (i : nat) w,
  indexes_built ex w i cs →
  (∃ (j : nat) (col : ColMeta) (ih : BTreeIndex),
     cs !! j = Some col ∧ index col = true ∧
     ihs_ (w_sm w) !! (ex_tab_name_ ex, (i + j)%nat) = Some ih ∧
     remove_key (col_bytes col rec) (entries ih) = None) →
  (for_each_from i (delete_from_index ex rec) cs w).2 = inl IndexEntryNotFoundError.
Proof.
  induction cs as [|c cs IH]; intros i w Hbuilt (j & col & ih & Hj & Hcol & Hih & Hno).
  { done. }
  simpl. unfold mbind, M_bind, bind.
  destruct (index c) eqn:Hc; last first.
  { rewrite (delete_from_index_skip _ _ _ _ _ Hc).
    apply IH; [by apply (indexes_built_tail ex w i c)|].
    destruct j as [|j]; simpl in Hj; [congruence|].
    exists j, col, ih. by rewrite Nat.add_succ_l, <- Nat.add_succ_r. }
  destruct (Hbuilt 0%nat c eq_refl Hc) as (ih0 & Hih0 & Hlen0).
  rewrite Nat.add_0_r in Hih0.
  rewrite (delete_from_index_by_key _ _ _ _ _ _ Hc Hih0 Hlen0).
  destruct (remove_key (col_bytes c rec) (entries ih0)) as [es|] eqn:Hrm; [|done].
  apply IH; [by apply (indexes_built_step ex w i c)|].
  destruct j as [|j]; simpl in Hj.
  { rewrite Nat.add_0_r in Hih. simplify_eq. }
  exists j, col, ih. split_and!; try done. simpl.
  rewrite lookup_insert_ne by (intros [=]; lia).
  by rewrite <- Nat.add_succ_r.
Qed.

(** With an entry for the key in the index of every indexed column, the
    loop returns, and each of these indexes has lost the first entry with
    the key. *)
Lemma column_loop_key_present ex rec (cs : list ColMeta) : ∀ (i : nat) w,
  indexes_built ex w i cs →
  (∀ (j : nat) (col : ColMeta) (ih : BTreeIndex),
     cs !! j = Some col → index col = true →
     ihs_ (w_sm w) !! (ex_tab_name_ ex, (i + j)%nat) = Some ih →
     remove_key (col_bytes col rec) (entries ih) ≠ None) →
  let r := for_each_from i (delete_from_index ex rec) cs w in
  r.2 = inr tt ∧
  (∀ (t : string) (p : nat),
     t ≠ ex_tab_name_ ex ∨ (p < i)%nat →
     ihs_ (w_sm r.1) !! (t, p) = ihs_ (w_sm w) !! (t, p)) ∧
  (∀ (j : nat) (col : ColMeta) (ih : BTreeIndex),
     cs !! j = Some col → index col = true →
     ihs_ (w_sm w) !! (ex_tab_name_ ex, (i + j)%nat) = Some ih →
     ∃ es, remove_key (col_bytes col rec) (entries ih) = Some es ∧
           ihs_ (w_sm r.1) !! (ex_tab_name_ ex, (i + j)%nat)
             = Some (mk_BTreeIndex (key_len ih) es)).
Proof.
  induction cs as [|c cs IH]; intros i w Hbuilt Hkeys; simpl.
  { by split_and!. }
  unfold mbind, M_bind, bind.
  destruct (index c) eqn:Hc; last first.
  { rewrite (delete_from_index_skip _ _ _ _ _ Hc).
    destruct (IH (S i) w) as (Hok & Hframe & Hdel).
    - by apply (indexes_built_tail ex w i c).
    - intros j col ih Hj Hcol Hih. apply (Hkeys (S j) col ih Hj Hcol).
      by rewrite Nat.add_succ_r.
    - split_and!; [done| |].
      + intros t p Hp. apply Hframe. destruct Hp; [by left|right; lia].
      + intros [|j] col ih Hj Hcol Hih; simpl in Hj; [congruence|].
        rewrite Nat.add_succ_r in *. by apply Hdel. }
  destruct (Hbuilt 0%nat c eq_refl Hc) as (ih0 & Hih0 & Hlen0).
  rewrite Nat.add_0_r in Hih0.
  rewrite (delete_from_index_by_key _ _ _ _ _ _ Hc Hih0 Hlen0).
  destruct (remove_key (col_bytes c rec) (entries ih0)) as [es|] eqn:Hrm; last first.
  { destruct (Hkeys 0%nat c ih0 eq_refl Hc); [by rewrite Nat.add_0_r|done]. }
  set (w1 := add_call _ (set_ih _ _ _ w)).
  destruct (IH (S i) w1) as (Hok & Hframe & Hdel).
  - by apply (indexes_built_step ex w i c).
  - intros j col ih Hj Hcol Hih. apply (Hkeys (S j) col ih Hj Hcol).
    subst w1. simpl in Hih. rewrite lookup_insert_ne in Hih by (intros [=]; lia).
    by rewrite Nat.add_succ_r.
  - split_and!; [done| |].
    + intros t p Hp. rewrite Hframe by (destruct Hp; [by left|right; lia]).
      subst w1. simpl. apply lookup_insert_ne. intros [=]. destruct Hp; [done|lia].
    + intros [|j] col ih Hj Hcol Hih; simpl in Hj.
      * rewrite Nat.add_0_r in *. simplify_eq. exists es. split; [done|].
        rewrite Hframe by (right; lia). subst w1. simpl. apply lookup_insert_eq.
      * rewrite Nat.add_succ_r in *. apply Hdel; [done|done|].
        subst w1. simpl. rewrite lookup_insert_ne by (intros [=]; lia). done.
Qed.

End IndexEntries.

Example new_DeleteExecutor_T :
  new_DeleteExecutor "T" [R1] (w_T [(key_5, R1)]) = (w_T [(key_5, R1)], inr ex_T).
Proof. vm_compute. reflexivity. Qed.

(** The scenario of the spec: deleting [R1] empties the index on [id],
    takes the row out of the heap file and appends one write record; the
    events are those of the schedule. *)
Example Next_scenario :
  let r := Next ex_T (w_T [(key_5, R1)]) in
  r.2 = inr None ∧
  entries <$> ihs_ (w_sm r.1) !! ("T", 0%nat) = Some [] ∧
  (fh ← fhs_ (w_sm r.1) !! "T"; records fh !! R1) = None ∧
  write_set_ (w_txn r.1) = [mk_WriteRecord DELETE_TUPLE "T" R1 row_5x] ∧
  w_calls r.1 =
    [EvGetRecord R1 row_5x; EvDeleteEntry "T" 0 (data row_5x); EvDeleteRecord R1;
     EvAppendWriteRecord (mk_WriteRecord DELETE_TUPLE "T" R1 row_5x)].
Proof. vm_compute. done. Qed.

Lemma Next_appends_write_records_witness :
  ∃ recs : list RmRecord,
    length recs = length (rids_ ex_T) ∧
    write_set_ (w_txn (Next ex_T (w_T [(key_5, R1)])).1)
      = write_set_ (w_txn (w_T [(key_5, R1)]))
          ++ zip_with (mk_WriteRecord DELETE_TUPLE (ex_tab_name_ ex_T)) (rids_ ex_T) recs ∧
    length (write_set_ (w_txn (Next ex_T (w_T [(key_5, R1)])).1))
      = (length (write_set_ (w_txn (w_T [(key_5, R1)]))) + length (rids_ ex_T))%nat ∧
    ∀ (fh : HeapFile) (i : nat) (rid : Rid) (rec : RmRecord),
      fhs_ (w_sm (w_T [(key_5, R1)])) !! fh_ ex_T = Some fh →
      rids_ ex_T !! i = Some rid → recs !! i = Some rec →
      records fh !! rid = Some rec.
Proof.
  apply (Next_appends_write_records ex_T (w_T [(key_5, R1)])).
  vm_compute. reflexivity.
Defined.

(** C1 (as stated, fails): the index on [id] holds the key of the row
    [R1] paired with another row identifier, [R2], and no entry for
    [R1]; [Next] for [R1] does not fail: it deletes the entry of [R2]. *)
Lemma entry_of_other_rid_deleted :
  ¬ fails_if_entry_of_rid_absent ex_T (w_T [(key_5, R2)]).
Proof.
  intros Hclaim.
  specialize (Hclaim R1 [] (mk_HeapFile {[ R1 := row_5x ]}) row_5x 0%nat
                (mk_ColMeta "id" 4 0 true) (mk_BTreeIndex 4 [(key_5, R2)])).
  assert ((Next ex_T (w_T [(key_5, R2)])).2 = inr None) as Hrun.
  { vm_compute. reflexivity. }
  rewrite Hrun in Hclaim. discriminate Hclaim; try by vm_compute.
  intros Hin. apply list_elem_of_singleton in Hin. by vm_compute in Hin.
Qed.

(** C1 (amended): for the row fetched for a row identifier, the indexes of
    the indexed columns are searched by the bytes of the column in the row;
    the Rid is not part of the search.  If one of them has no entry with
    these bytes, [delete_rid] throws [IndexEntryNotFoundError]; if all of
    them have one, each loses the first entry with these bytes, whatever
    the Rid of the entry. *)
Theorem delete_rid_deletes_entries_by_key {File : Type} `{!RmFileHandle File}
    (ex : DeleteExecutor) (rid : Rid) (w : world (File := File) (Ix := BTreeIndex))
    (fh : File) (rec : RmRecord) :
  fhs_ (w_sm w) !! fh_ ex = Some fh →
  get_record fh rid = inr rec →
  indexes_built ex w 0 (cols (tab_ ex)) →
  let r := delete_rid ex rid w in
  ((∃ (i : nat) (col : ColMeta) (ih : BTreeIndex),
      cols (tab_ ex) !! i = Some col ∧ index col = true ∧
      ihs_ (w_sm w) !! (ex_tab_name_ ex, i) = Some ih ∧
      ∀ e, e ∈ entries ih → e.1 ≠ col_bytes col rec) →
   r.2 = inl IndexEntryNotFoundError) ∧
  ((∀ (i : nat) (col : ColMeta) (ih : BTreeIndex),
      cols (tab_ ex) !! i = Some col → index col = true →
      ihs_ (w_sm w) !! (ex_tab_name_ ex, i) = Some ih →
      ∃ e, e ∈ entries ih ∧ e.1 = col_bytes col rec) →
   ∀ (i : nat) (col : ColMeta) (ih : BTreeIndex),
     cols (tab_ ex) !! i = Some col → index col = true →
     ihs_ (w_sm w) !! (ex_tab_name_ ex, i) = Some ih →
     ∃ (before : list (list byte * Rid)) (rid' : Rid) (after : list (list byte * Rid)),
       entries ih = before ++ (col_bytes col rec, rid') :: after ∧
       (∀ e, e ∈ before → e.1 ≠ col_bytes col rec) ∧
       ihs_ (w_sm r.1) !! (ex_tab_name_ ex, i)
         = Some (mk_BTreeIndex (key_len ih) (before ++ after))).
Proof.
  intros Hfh Hget Hbuilt r. subst r. rewrite delete_rid_run, Hfh, Hget.
  set (w0 := add_call (EvGetRecord rid rec) w).
  split.
  - intros (i & col & ih & Hi & Hcol & Hih & Hno).
    pose proof (column_loop_key_absent ex rec (cols (tab_ ex)) 0%nat w0 Hbuilt) as Hloop.
    destruct (for_each_from 0%nat (delete_from_index ex rec) (cols (tab_ ex)) w0)
      as [w2 [e|[]]]; simpl in *.
    + apply Hloop. exists i, col, ih. split_and!; try done. by apply remove_key_None.
    + discriminate Hloop. exists i, col, ih. split_and!; try done.
      by apply remove_key_None.
  - intros Hkeys i col ih Hi Hcol Hih.
    destruct (column_loop_key_present ex rec (cols (tab_ ex)) 0%nat w0 Hbuilt)
      as (Hok & _ & Hdel).
    { intros j c ihj Hj Hc Hihj Hno.
      destruct (Hkeys j c ihj Hj Hc Hihj) as (e & He & Hkey).
      by apply (proj1 (remove_key_None _ _) Hno e). }
    destruct (Hdel i col ih Hi Hcol Hih) as (es & Hrm & Hlook).
    apply remove_key_Some in Hrm as (before & rid' & after & Hes & Hbefore & ->).
    exists before, rid', after. split_and!; try done.
    destruct (for_each_from 0%nat (delete_from_index ex rec) (cols (tab_ ex)) w0)
      as [w2 [e|[]]]; simpl in *; [done|].
    destruct (fhs_ (w_sm w2) !! fh_ ex) as [fh2|]; [|done].
    by destruct (delete_record fh2 rid).
Qed.

Lemma delete_rid_deletes_entries_by_key_witness :
  let w := w_T [(key_5, R2); (key_5, R1)] in
  let r := delete_rid ex_T R1 w in
  ((∃ (i : nat) (col : ColMeta) (ih : BTreeIndex),
      cols (tab_ ex_T) !! i = Some col ∧ index col = true ∧
      ihs_ (w_sm w) !! (ex_tab_name_ ex_T, i) = Some ih ∧
      ∀ e, e ∈ entries ih → e.1 ≠ col_bytes col row_5x) →
   r.2 = inl IndexEntryNotFoundError) ∧
  ((∀ (i : nat) (col : ColMeta) (ih : BTreeIndex),
      cols (tab_ ex_T) !! i = Some col → index col = true →
      ihs_ (w_sm w) !! (ex_tab_name_ ex_T, i) = Some ih →
      ∃ e, e ∈ entries ih ∧ e.1 = col_bytes col row_5x) →
   ∀ (i : nat) (col : ColMeta) (ih : BTreeIndex),
     cols (tab_ ex_T) !! i = Some col → index col = true →
     ihs_ (w_sm w) !! (ex_tab_name_ ex_T, i) = Some ih →
     ∃ (before : list (list byte * Rid)) (rid' : Rid) (after : list (list byte * Rid)),
       entries ih = before ++ (col_bytes col row_5x, rid') :: after ∧
       (∀ e, e ∈ before → e.1 ≠ col_bytes col row_5x) ∧
       ihs_ (w_sm r.1) !! (ex_tab_name_ ex_T, i)
         = Some (mk_BTreeIndex (key_len ih) (before ++ after))).
Proof.
  apply (delete_rid_deletes_entries_by_key ex_T R1 (w_T [(key_5, R2); (key_5, R1)])
           (mk_HeapFile {[ R1 := row_5x ]}) row_5x).
  - vm_compute. reflexivity.
  - vm_compute. reflexivity.
  - intros [|[|j]] col Hj Hcol; simpl in Hj; simplify_eq.
    exists (mk_BTreeIndex 4 [(key_5, R2); (key_5, R1)]). split; reflexivity.
Defined.

(** With the entries of two rows under the same key, deleting [R1] removes
    the entry of [R2], the first one with the key, and leaves the entry of
    [R1] in the index. *)
Example first_entry_with_key_deleted :
  entries <$> ihs_ (w_sm (Next ex_T (w_T [(key_5, R2); (key_5, R1)])).1) !! ("T", 0%nat)
    = Some [(key_5, R1)].
Proof. vm_compute. reflexivity. Qed.

(** * Further properties of the disk manager *)

(** ** Appending to the log *)

Lemma write_at_end (content bytes : list byte) :
  write_at content (length content) bytes = content ++ bytes.
Proof.
  unfold write_at. rewrite firstn_all, Nat.sub_diag. simpl.
  rewrite drop_ge by lia. by rewrite app_nil_r.
Qed.

(** What [WriteLog] does once the log is open: [n] bytes are appended to
    the file the log descriptor is open on, as many as there is room for,
    and the call throws unless these are all. *)
Lemma WriteLog_run (LOG : string) (m m1 : machine) (log_data : list byte)
    (size : Z) (d : ofd) (f : inode) :
  open_log LOG m = (m1, inr tt) →
  os_fds (m_os m1) !! log_fd_ (m_dm m1) = Some d →
  os_files (m_os m1) !! ofd_path d = Some f →
  0 ≤ size ≤ INT_MAX →
  size ≤ Z.of_nat (length log_data) →
  let n := Z.max 0 (Z.min size (os_fsize (m_os m1) - Z.of_nat (length (i_data f)))) in
  ∃ (m2 : machine) (f' : inode) (d' : ofd),
    WriteLog LOG log_data size m
      = (m2, if n =? size then inr tt else inl UnixError) ∧
    m_dm m2 = m_dm m1 ∧
    os_fsize (m_os m2) = os_fsize (m_os m1) ∧
    os_fds (m_os m2) !! log_fd_ (m_dm m1) = Some d' ∧ ofd_path d' = ofd_path d ∧
    os_files (m_os m2) !! ofd_path d = Some f' ∧
    i_kind f' = i_kind f ∧
    i_data f' = i_data f ++ take (Z.to_nat n) log_data ∧
    ∀ p, p ≠ ofd_path d → os_files (m_os m2) !! p = os_files (m_os m1) !! p.
Proof.
  intros Hlog Hd Hf Hsize Hbuf n.
  unfold WriteLog. unfold mbind at 1, M_bind at 1, bind at 1. rewrite Hlog.
  run. rewrite (to_size_t_id size) by done.
  unfold sys_lseek. rewrite Hd. unfold file_len. rewrite Hf.
  rewrite Z.add_0_r.
  destruct (Z.ltb_spec (Z.of_nat (length (i_data f))) 0) as [|_]; [lia|]. simpl.
  unfold sys_write. simpl. rewrite lookup_insert_eq. simpl. rewrite Hf.
  destruct (Z.ltb_spec (Z.of_nat (length log_data)) size) as [|_]; [lia|].
  destruct (Z.eqb_spec size 0) as [->|Hpos]; simpl.
  { assert (n = 0) as -> by (subst n; lia). simpl.
    eexists _, f, _. split; [done|]. simpl. rewrite lookup_insert_eq.
    split_and!; try done. by rewrite app_nil_r. }
  destruct (Z.leb_spec (os_fsize (m_os m1) - Z.of_nat (length (i_data f))) 0).
  { assert (n = 0) as -> by (subst n; lia).
    destruct size as [|sz|sz]; [done| |lia]. simpl.
    eexists _, f, _. split; [done|]. simpl. rewrite lookup_insert_eq.
    split_and!; try done. by rewrite app_nil_r. }
  assert (Z.min size (os_fsize (m_os m1) - Z.of_nat (length (i_data f))) = n) as ->
    by (subst n; lia).
  simpl. rewrite Nat2Z.id, write_at_end.
  eexists _, _, _. split.
  { by destruct (n =? size). }
  simpl. rewrite !lookup_insert_eq. split_and!; try done.
  intros p Hp. by rewrite lookup_insert_ne.
Qed.

Lemma ReadLog_run (LOG : string) (m m1 : machine) (log_data : list byte)
    (size offset prev_log_end : Z) (d : ofd) (f : inode) :
  open_log LOG m = (m1, inr tt) →
  os_fds (m_os m1) !! log_fd_ (m_dm m1) = Some d →
  ofd_path d = LOG →
  os_files (m_os m1) !! LOG = Some f →
  Z.of_nat (length (i_data f)) ≤ INT_MAX →
  0 ≤ offset + prev_log_end < Z.of_nat (length (i_data f)) →
  0 ≤ size ≤ INT_MAX →
  let pos := offset + prev_log_end in
  let n := Z.min size (Z.of_nat (length (i_data f)) - pos) in
  n ≤ Z.of_nat (length log_data) →
  ∃ m2 : machine,
    ReadLog LOG log_data size offset prev_log_end m
      = (m2, inr (true, take (Z.to_nat n) (drop (Z.to_nat pos) (i_data f))
                          ++ drop (Z.to_nat n) log_data)) ∧
    m_dm m2 = m_dm m1 ∧ os_files (m_os m2) = os_files (m_os m1).
Proof.
  intros Hlog Hd Hpath Hf Hlen Hpos Hsize pos n Hbuf.
  assert (wrap_int (offset + prev_log_end) = pos) as Hwrap.
  { apply wrap_int_id. unfold in_int, INT_MIN. lia. }
  unfold ReadLog. unfold mbind at 1, M_bind at 1, bind at 1. rewrite Hlog, Hwrap.
  unfold mbind, M_bind, bind. rewrite (GetFileSize_run _ _ _ Hf Hlen).
  destruct (Z.geb_spec pos (Z.of_nat (length (i_data f)))); [lia|].
  rewrite wrap_int_id by (unfold in_int, INT_MIN, INT_MAX in *; lia).
  fold n. run. rewrite (to_size_t_id n) by lia.
  rewrite (sys_lseek_set _ _ _ _ Hd) by lia. simpl.
  assert (length (take (Z.to_nat n) (drop (Z.to_nat pos) (i_data f))) = Z.to_nat n)
    as Hgot.
  { rewrite length_take, length_drop. lia. }
  erewrite sys_read_run;
    [|unfold SSIZE_MAX, INT_MAX in *; lia
     |by apply lookup_insert_eq|simpl; rewrite Hpath; exact Hf|simpl; lia].
  simpl. rewrite Hgot, Z2Nat.id, Z.eqb_refl by lia. simpl.
  eexists. by split.
Qed.

(** X1: [WriteLog] with room for [size] bytes appends exactly the first
    [size] bytes of the buffer to the file the log descriptor is open on;
    no other file changes and the tables of the manager stay as they
    are. *)
Theorem WriteLog_appends (LOG : string) (m m1 : machine) (log_data : list byte)
    (size : Z) (d : ofd) (f : inode) :
  open_log LOG m = (m1, inr tt) →
  os_fds (m_os m1) !! log_fd_ (m_dm m1) = Some d →
  os_files (m_os m1) !! ofd_path d = Some f →
  0 ≤ size ≤ INT_MAX →
  size ≤ Z.of_nat (length log_data) →
  Z.of_nat (length (i_data f)) + size ≤ os_fsize (m_os m1) →
  ∃ (m2 : machine) (f' : inode),
    WriteLog LOG log_data size m = (m2, inr tt) ∧
    m_dm m2 = m_dm m1 ∧
    os_files (m_os m2) !! ofd_path d = Some f' ∧
    i_data f' = i_data f ++ take (Z.to_nat size) log_data ∧
    ∀ p, p ≠ ofd_path d → os_files (m_os m2) !! p = os_files (m_os m1) !! p.
Proof.
  intros Hlog Hd Hf Hsize Hbuf Hroom.
  destruct (WriteLog_run LOG m m1 log_data size d f Hlog Hd Hf Hsize Hbuf)
    as (m2 & f' & d' & Hrun & Hdm & _ & _ & _ & Hf' & _ & Hdata & Hframe).
  rewrite Z.max_r, Z.min_l in Hrun, Hdata by lia. rewrite Z.eqb_refl in Hrun.
  by exists m2, f'.
Qed.

(** X2: [WriteLog] with less room than [size] bytes throws [UnixError],
    and the bytes there was room for stay appended to the log. *)
Theorem WriteLog_short_write (LOG : string) (m m1 : machine) (log_data : list byte)
    (size : Z) (d : ofd) (f : inode) :
  open_log LOG m = (m1, inr tt) →
  os_fds (m_os m1) !! log_fd_ (m_dm m1) = Some d →
  os_files (m_os m1) !! ofd_path d = Some f →
  0 < size ≤ INT_MAX →
  size ≤ Z.of_nat (length log_data) →
  os_fsize (m_os m1) < Z.of_nat (length (i_data f)) + size →
  ∃ (m2 : machine) (f' : inode),
    WriteLog LOG log_data size m = (m2, inl UnixError) ∧
    os_files (m_os m2) !! ofd_path d = Some f' ∧
    i_data f' = i_data f
      ++ take (Z.to_nat (os_fsize (m_os m1) - Z.of_nat (length (i_data f)))) log_data.
Proof.
  intros Hlog Hd Hf Hsize Hbuf Hroom.
  destruct (WriteLog_run LOG m m1 log_data size d f Hlog Hd Hf ltac:(lia) Hbuf)
    as (m2 & f' & d' & Hrun & _ & _ & _ & _ & Hf' & _ & Hdata & _).
  rewrite Z.min_r in Hrun, Hdata by lia.
  destruct (Z.eqb_spec
              (Z.max 0 (os_fsize (m_os m1) - Z.of_nat (length (i_data f)))) size);
    [lia|].
  exists m2, f'. split_and!; try done. rewrite Hdata. do 2 f_equal. lia.
Qed.

(** X3: two [WriteLog] calls followed by a [ReadLog] from the old end of
    the log return the bytes of the first write followed by those of the
    second. *)
Theorem WriteLog_twice_ReadLog (LOG : string) (m m1 : machine)
    (b1 b2 buf : list byte) (d : ofd) (f : inode) :
  open_log LOG m = (m1, inr tt) →
  log_fd_ (m_dm m1) ≠ -1 →
  os_fds (m_os m1) !! log_fd_ (m_dm m1) = Some d →
  ofd_path d = LOG →
  os_files (m_os m1) !! LOG = Some f →
  let old := Z.of_nat (length (i_data f)) in
  let size := Z.of_nat (length b1 + length b2) in
  0 < size →
  old + size ≤ INT_MAX →
  old + size ≤ os_fsize (m_os m1) →
  size ≤ Z.of_nat (length buf) →
  ∃ m' : machine,
    (WriteLog LOG b1 (Z.of_nat (length b1));;
     WriteLog LOG b2 (Z.of_nat (length b2));;
     ReadLog LOG buf size old 0) m
      = (m', inr (true, (b1 ++ b2) ++ drop (Z.to_nat size) buf)).
Proof.
  intros Hlog Hfd Hd Hpath Hf old size Hpos Hmax Hroom Hbuf. subst LOG.
  destruct (WriteLog_run _ m m1 b1 (Z.of_nat (length b1)) d f Hlog Hd Hf)
    as (m2 & f2 & d2 & Hrun1 & Hdm2 & Hfsize2 & Hd2 & Hpath2 & Hf2 & _ & Hdata2 & _);
    [lia|lia|].
  rewrite Z.max_r, Z.min_l, Z.eqb_refl, Nat2Z.id, firstn_all in * by lia.
  assert (open_log (ofd_path d) m2 = (m2, inr tt)) as Hlog2.
  { apply open_log_opened. by rewrite Hdm2. }
  rewrite <- Hdm2 in Hd2. rewrite <- Hpath2 in Hf2.
  destruct (WriteLog_run _ m2 m2 b2 (Z.of_nat (length b2)) d2 f2 Hlog2 Hd2 Hf2)
    as (m3 & f3 & d3 & Hrun2 & Hdm3 & Hfsize3 & Hd3 & Hpath3 & Hf3 & _ & Hdata3 & _);
    [lia|lia|].
  assert (Z.of_nat (length (i_data f2)) = old + Z.of_nat (length b1)) as Hlen2.
  { rewrite Hdata2, length_app. lia. }
  rewrite Z.max_r, Z.min_l, Z.eqb_refl, Nat2Z.id, firstn_all in * by lia.
  assert (open_log (ofd_path d) m3 = (m3, inr tt)) as Hlog3.
  { apply open_log_opened. by rewrite Hdm3, Hdm2. }
  rewrite <- Hdm3 in Hd3. rewrite Hpath2 in Hf3.
  assert (Z.of_nat (length (i_data f3)) = old + size) as Hlen3.
  { rewrite Hdata3, length_app. lia. }
  destruct (ReadLog_run _ m3 m3 buf size old 0 d3 f3 Hlog3 Hd3)
    as (m4 & Hrun3 & _); try lia.
  { by rewrite Hpath3. }
  { done. }
  rewrite Z.add_0_r, Hlen3 in Hrun3.
  replace (old + size - old) with size in Hrun3 by lia.
  rewrite Z.min_id in Hrun3.
  assert (take (Z.to_nat size) (drop (Z.to_nat old) (i_data f3)) = b1 ++ b2) as Hback.
  { rewrite Hdata3, Hdata2, <- app_assoc. subst old. rewrite Nat2Z.id.
    rewrite drop_app_length. subst size. rewrite Nat2Z.id, <- length_app.
    apply firstn_all. }
  rewrite Hback in Hrun3. exists m4.
  unfold mbind, M_bind, bind. by rewrite Hrun1, Hrun2.
Qed.

(** ** Pages *)

Lemma write_at_length (content bytes : list byte) (pos : nat) :
  length (write_at content pos bytes)
    = (length content `max` (pos + length bytes))%nat.
Proof.
  unfold write_at.
  rewrite !length_app, length_take, length_replicate, length_drop. lia.
Qed.

Lemma write_at_lookup_before (content bytes : list byte) (pos i : nat) :
  (i < pos)%nat →
  write_at content pos bytes !! i
    = if decide (i < length content)%nat then content !! i else Some Byte.x00.
Proof.
  intros Hi. unfold write_at. case_decide as Hlen.
  - rewrite lookup_app_l by (rewrite length_take; lia).
    by rewrite lookup_take_lt.
  - rewrite lookup_app_r by (rewrite length_take; lia).
    rewrite length_take, lookup_app_l by (rewrite length_replicate; lia).
    apply lookup_replicate_2. lia.
Qed.

Lemma write_at_lookup_after (content bytes : list byte) (pos i : nat) :
  (pos + length bytes ≤ i)%nat →
  write_at content pos bytes !! i = content !! i.
Proof.
  intros Hi. unfold write_at.
  rewrite lookup_app_r by (rewrite length_take; lia).
  rewrite lookup_app_r by (rewrite length_take, length_replicate; lia).
  rewrite lookup_app_r by (rewrite length_take, length_replicate; lia).
  rewrite lookup_drop, length_take, length_replicate. f_equal. lia.
Qed.

Section MorePages.

Variable PAGE_SIZE : Z.

(** The file after a [write_page] of at least one byte. *)
Lemma write_page_data (m : machine) (fd page_no n : Z) (bytes : list byte)
    (d : ofd) (f : inode) :
  os_fds (m_os m) !! fd = Some d →
  os_files (m_os m) !! ofd_path d = Some f →
  0 ≤ page_no * PAGE_SIZE ≤ INT_MAX →
  0 < n ≤ PAGE_SIZE → n ≤ INT_MAX →
  n ≤ Z.of_nat (length bytes) →
  page_no * PAGE_SIZE + n ≤ os_fsize (m_os m) →
  ∃ (m' : machine) (f' : inode),
    write_page PAGE_SIZE fd page_no bytes n m = (m', inr tt) ∧
    m_dm m' = m_dm m ∧
    os_files (m_os m') !! ofd_path d = Some f' ∧
    i_data f' = write_at (i_data f) (Z.to_nat (page_no * PAGE_SIZE))
                  (take (Z.to_nat n) bytes) ∧
    ∀ p, p ≠ ofd_path d → os_files (m_os m') !! p = os_files (m_os m) !! p.
Proof.
  intros Hd Hf Hoff Hn Hn_int Hlen Hroom.
  unfold write_page, Lseek, Write. run.
  destruct (Z.leb_spec n PAGE_SIZE) as [_|]; [|lia]. run.
  rewrite (page_offset_exact _ _ Hoff), (to_size_t_id n) by lia.
  rewrite (sys_lseek_set _ _ _ _ Hd) by lia.
  destruct (Z.ltb_spec (page_no * PAGE_SIZE) 0) as [|_]; [lia|]. simpl.
  erewrite sys_write_all;
    [|by apply lookup_insert_eq|simpl; exact Hf|lia|lia|simpl; lia]. simpl.
  destruct (Z.ltb_spec n 0); [lia|]. simpl.
  eexists _, _. split; [done|]. simpl. rewrite lookup_insert_eq.
  split_and!; try done. intros p Hp. by rewrite lookup_insert_ne.
Qed.

(** X4: [write_page] changes the bytes it writes and nothing else: the
    file ends where it ended before or where the written bytes end, a byte
    that was in the file outside the written range is still there, the
    bytes between the old end of the file and the page read as zero, and
    no other file changes. *)
Theorem write_page_keeps_other_bytes (m : machine) (fd page_no n : Z)
    (bytes : list byte) (d : ofd) (f : inode) :
  os_fds (m_os m) !! fd = Some d →
  os_files (m_os m) !! ofd_path d = Some f →
  0 ≤ page_no * PAGE_SIZE ≤ INT_MAX →
  0 < n ≤ PAGE_SIZE → n ≤ INT_MAX →
  n ≤ Z.of_nat (length bytes) →
  page_no * PAGE_SIZE + n ≤ os_fsize (m_os m) →
  let pos := Z.to_nat (page_no * PAGE_SIZE) in
  let k := Z.to_nat n in
  ∃ (m' : machine) (f' : inode),
    write_page PAGE_SIZE fd page_no bytes n m = (m', inr tt) ∧
    os_files (m_os m') !! ofd_path d = Some f' ∧
    length (i_data f') = (length (i_data f) `max` (pos + k))%nat ∧
    (∀ (i : nat) (x : byte),
       i_data f !! i = Some x → (i < pos ∨ pos + k ≤ i)%nat →
       i_data f' !! i = Some x) ∧
    (∀ i : nat,
       (length (i_data f) ≤ i < pos)%nat → i_data f' !! i = Some Byte.x00) ∧
    (∀ p, p ≠ ofd_path d → os_files (m_os m') !! p = os_files (m_os m) !! p).
Proof.
  intros Hd Hf Hoff Hn Hn_int Hlen Hroom pos k.
  destruct (write_page_data m fd page_no n bytes d f)
    as (m' & f' & Hrun & _ & Hf' & Hdata & Hframe); try done.
  subst pos k.
  assert (length (take (Z.to_nat n) bytes) = Z.to_nat n) as Hk
    by (rewrite length_take; lia).
  exists m', f'. split_and!; try done.
  - by rewrite Hdata, write_at_length, Hk.
  - intros i x Hx [Hi|Hi]; rewrite Hdata.
    + rewrite write_at_lookup_before by done.
      apply lookup_lt_Some in Hx as Hlt. by rewrite decide_True.
    + rewrite write_at_lookup_after; [done|]. by rewrite Hk.
  - intros i [Hlo Hhi]. rewrite Hdata, write_at_lookup_before by done.
    by rewrite decide_False by lia.
Qed.

(** X5: [read_page] and [write_page] on a handle that is no open
    descriptor, or for a negative page number, throw [UnixError] and
    change nothing. *)
Theorem page_io_bad_handle_or_page (m : machine) (fd page_no n : Z)
    (buf : list byte) :
  n ≤ PAGE_SIZE →
  in_int (page_no * PAGE_SIZE) →
  os_fds (m_os m) !! fd = None ∨ page_no * PAGE_SIZE < 0 →
  read_page PAGE_SIZE fd page_no buf n m = (m, inl UnixError) ∧
  write_page PAGE_SIZE fd page_no buf n m = (m, inl UnixError).
Proof.
  intros Hn Hint Hbad.
  assert (sys_lseek fd (page_no * PAGE_SIZE) SEEK_SET (m_os m) = (m_os m, -1)) as Hseek.
  { unfold sys_lseek. destruct (os_fds (m_os m) !! fd) as [d|]; [|done].
    destruct Hbad as [|Hneg]; [done|].
    by destruct (Z.ltb_spec (page_no * PAGE_SIZE) 0); [|lia]. }
  unfold read_page, write_page, Lseek. run.
  destruct (Z.leb_spec n PAGE_SIZE) as [_|]; [|lia]. run.
  rewrite (wrap_int_id _ Hint), Hseek. simpl. by destruct m.
Qed.

(** X6: [read_page] of a page that begins at or past the end of the file
    returns normally and hands the buffer back as it was. *)
Theorem read_page_past_end (m : machine) (fd page_no n : Z) (buf : list byte)
    (d : ofd) (f : inode) :
  os_fds (m_os m) !! fd = Some d →
  os_files (m_os m) !! ofd_path d = Some f →
  0 ≤ page_no * PAGE_SIZE ≤ INT_MAX →
  0 ≤ n ≤ PAGE_SIZE → n ≤ INT_MAX →
  n ≤ Z.of_nat (length buf) →
  Z.of_nat (length (i_data f)) ≤ page_no * PAGE_SIZE →
  ∃ m' : machine,
    read_page PAGE_SIZE fd page_no buf n m = (m', inr buf) ∧
    m_dm m' = m_dm m ∧ os_files (m_os m') = os_files (m_os m).
Proof.
  intros Hd Hf Hoff Hn Hn_int Hbuf Hpast.
  destruct (read_page_run PAGE_SIZE m fd page_no n buf d f)
    as (m' & Hrun & Hdm & Hfiles); try done.
  rewrite drop_ge in Hrun by lia. rewrite take_nil in Hrun. by exists m'.
Qed.

End MorePages.

(** ** The Open File Table and the page counters *)

Lemma open_file_cases (path : string) (m : machine) :
  (∃ e, open_file path m = (m, inl e)) ∨
  (∃ fd, path2fd_ (m_dm m) !! path = Some fd ∧ open_file path m = (m, inr fd)) ∨
  (path2fd_ (m_dm m) !! path = None ∧
   open_file path m =
     (mk_machine (sys_open path (m_os m)).1
        (mk_DiskManager (<[path := (sys_open path (m_os m)).2]> (path2fd_ (m_dm m)))
           (<[(sys_open path (m_os m)).2 := path]> (fd2path_ (m_dm m)))
           (log_fd_ (m_dm m)) (fd2pageno_ (m_dm m))),
      inr (sys_open path (m_os m)).2)).
Proof.
  destruct (os_files (m_os m) !! path) as [st|] eqn:Hst; last first.
  { left. eexists. apply open_file_not_found. intros ?. by rewrite Hst. }
  destruct (i_kind st) eqn:Hkind; last first.
  { left. eexists. apply open_file_not_found. intros ?. rewrite Hst. congruence. }
  destruct (path2fd_ (m_dm m) !! path) as [fd|] eqn:Hp.
  - right. left. exists fd. split; [done|]. by eapply open_file_already_open.
  - right. right. split; [done|]. by eapply open_file_fresh.
Qed.

Lemma close_file_cases (fd : Z) (m : machine) :
  close_file fd m = (m, inl (FileNotOpenError fd)) ∨
  (∃ path, fd2path_ (m_dm m) !! fd = Some path ∧
     close_file fd m =
       (mk_machine (sys_close fd (m_os m)).1
          (mk_DiskManager (delete path (path2fd_ (m_dm m)))
             (delete fd (fd2path_ (m_dm m))) (log_fd_ (m_dm m))
             (fd2pageno_ (m_dm m))),
        inr tt)).
Proof.
  destruct (fd2path_ (m_dm m) !! fd) as [path|] eqn:Hfd.
  - right. exists path. split; [done|]. by apply close_file_open.
  - left. by apply close_file_not_open.
Qed.

Lemma run_ops_pageno (ops : list table_op) : ∀ m : machine,
  fd2pageno_ (m_dm (run_ops ops m).1) = fd2pageno_ (m_dm m).
Proof.
  induction ops as [|[path|fd] ops IH]; intros m; simpl; [done| |].
  - destruct (open_file_cases path m) as [[e ->]|[(fd & _ & ->)|[_ ->]]];
      simpl; by rewrite IH.
  - destruct (close_file_cases fd m) as [->|(path & _ & ->)]; simpl; by rewrite IH.
Qed.

(** X7: no [open_file] and no [close_file] resets a page counter: after
    any sequence of them, [AllocatePage] on a handle goes on from the
    number the handle had reached before, whichever file now has the
    handle. *)
Theorem page_counter_survives_reopen (MAX_FD fd c : Z) (ops : list table_op)
    (m : machine) :
  0 ≤ fd < MAX_FD →
  fd2pageno_ (m_dm m) !! Z.to_nat fd = Some c →
  (AllocatePage MAX_FD fd (run_ops ops m).1).2 = inr c.
Proof.
  intros Hfd Hc. rewrite (AllocatePage_run MAX_FD fd c); [done|done|].
  by rewrite run_ops_pageno.
Qed.

Lemma DeallocatePage_all (pages : list Z) (m : machine) :
  for_each DeallocatePage pages m = (m, inr tt).
Proof. induction pages as [|p pages IH]; [done|]. simpl. run. apply IH. Qed.

(** X8: a page number is handed out once: after [k] allocations on a
    handle and the deallocation of any pages, the next allocation returns
    a number greater than every number allocated before. *)
Theorem deallocated_page_not_reused (MAX_FD fd c : Z) (k : nat)
    (pages : list Z) (m : machine) :
  0 ≤ fd < MAX_FD →
  fd2pageno_ (m_dm m) !! Z.to_nat fd = Some c →
  in_int c →
  c + Z.of_nat k ≤ INT_MAX →
  ∃ (m' : machine) (ps : list Z) (p : Z),
    (ps ← allocate_pages MAX_FD fd k;
     for_each DeallocatePage pages;;
     p ← AllocatePage MAX_FD fd;
     mret (ps, p)) m = (m', inr (ps, p)) ∧
    length ps = k ∧
    ∀ q, q ∈ ps → q < p.
Proof.
  intros Hfd Hc Hint Hk.
  pose proof (allocate_pages_run MAX_FD fd k c m Hfd Hc Hint) as Hrun.
  rewrite wrap_int_id in Hrun by (unfold in_int, INT_MIN, INT_MAX in *; lia).
  exists (set_pageno fd (wrap_int (c + Z.of_nat k + 1)) m),
    (seqZ c (Z.of_nat k)), (c + Z.of_nat k).
  split_and!.
  - unfold mbind, M_bind, bind. rewrite Hrun by lia.
    rewrite DeallocatePage_all.
    rewrite (AllocatePage_run MAX_FD fd (c + Z.of_nat k)); [|done|].
    + by rewrite set_pageno_twice.
    + by eapply set_pageno_lookup.
  - by rewrite length_seqZ, Nat2Z.id.
  - intros q Hq. apply elem_of_seqZ in Hq. lia.
Qed.

Lemma table_inv_run_ops (ops : list table_op) : ∀ m : machine,
  oft_inv (m_dm m) → fds_open m →
  (run_ops ops m).2 = true →
  oft_inv (m_dm (run_ops ops m).1) ∧ fds_open (run_ops ops m).1.
Proof.
  induction ops as [|[path|fd] ops IH]; intros m Hinv Hopen Hok; [done| |].
  - simpl in *. destruct (open_file path m) as [m' [e|fd]] eqn:Hrun.
    + apply open_file_throws in Hrun as ->. by apply IH.
    + simpl in *. apply andb_true_iff in Hok as [Hfd Hok].
      apply Z.leb_le in Hfd.
      destruct (oft_inv_open_file _ _ _ _ Hinv Hopen Hrun Hfd). by apply IH.
  - simpl in *. apply IH; [|by apply fds_open_close_file|done].
    by apply oft_inv_close_file.
Qed.

(** X9: as long as every [open] succeeds, any sequence of [open_file]
    and [close_file] keeps the two maps inverse to each other and every
    handle of the table an open descriptor. *)
Theorem table_sound_while_open_succeeds (ops : list table_op) (m : machine) :
  oft_inv (m_dm m) → fds_open m →
  (run_ops ops m).2 = true →
  oft_inv (m_dm (run_ops ops m).1) ∧ fds_open (run_ops ops m).1.
Proof. apply table_inv_run_ops. Qed.


(** ** Names and handles *)

(** X11: with the table sound, [GetFileFd] of a regular file returns a
    handle under which [GetFileName] finds the path again, and a second
    [GetFileFd] returns the same handle without another [open]; after
    [close_file] of the handle, [GetFileName] throws [FileNotOpenError]. *)
Theorem GetFileFd_GetFileName (path : string) (m : machine) (st : inode) :
  oft_inv (m_dm m) →
  os_files (m_os m) !! path = Some st →
  i_kind st = S_IFREG →
  ∃ (fd : Z) (m1 m2 : machine),
    GetFileFd path m = (m1, inr fd) ∧
    GetFileName fd m1 = (m1, inr path) ∧
    GetFileFd path m1 = (m1, inr fd) ∧
    close_file fd m1 = (m2, inr tt) ∧
    GetFileName fd m2 = (m2, inl (FileNotOpenError fd)).
Proof.
  intros Hinv Hst Hreg.
  assert (∃ (fd : Z) (m1 : machine),
            GetFileFd path m = (m1, inr fd) ∧
            path2fd_ (m_dm m1) !! path = Some fd ∧
            fd2path_ (m_dm m1) !! fd = Some path) as (fd & m1 & Hget & Hp1 & Hfd1).
  { unfold GetFileFd. run.
    destruct (path2fd_ (m_dm m) !! path) as [fd|] eqn:Hp.
    - exists fd, m. split_and!; [done|done|by apply Hinv].
    - rewrite (open_file_fresh _ _ _ Hst Hreg Hp). simpl.
      eexists _, _. split; [done|]. simpl. by rewrite !lookup_insert_eq. }
  exists fd, m1, (close_file fd m1).1. split; [done|].
  rewrite (close_file_open _ _ _ Hfd1). simpl.
  unfold GetFileFd, GetFileName. run. rewrite Hp1, Hfd1, lookup_delete_eq.
  by split_and!.
Qed.

(** ** Creating and destroying files *)

Lemma destroy_file_run (path : string) (m : machine) (st : inode) :
  path2fd_ (m_dm m) !! path = None →
  os_files (m_os m) !! path = Some st →
  i_kind st = S_IFREG →
  destroy_file path m =
    (mk_machine
       (mk_OS (delete path (os_files (m_os m))) (os_fds (m_os m))
          (os_nofile (m_os m)) (os_fsize (m_os m)))
       (m_dm m),
     inr tt).
Proof.
  intros Hp Hst Hreg. unfold destroy_file, Unlink, sys_stat, sys_unlink. run.
  rewrite Hp, Hst. simpl. by rewrite Hst, Hreg.
Qed.

Lemma destroy_file_open (path : string) (m : machine) :
  is_Some (path2fd_ (m_dm m) !! path) →
  destroy_file path m = (m, inl (FileNotFoundError path)).
Proof.
  intros [fd Hfd]. unfold destroy_file. run. by rewrite Hfd.
Qed.

(** X12: a file that [open_file] has opened cannot be destroyed:
    [destroy_file] throws [FileNotFoundError] and the file stays; after
    [close_file] of its handle [destroy_file] removes it. *)
Theorem destroy_file_needs_close (path : string) (m m1 : machine) (st : inode)
    (fd : Z) :
  os_files (m_os m) !! path = Some st →
  i_kind st = S_IFREG →
  path2fd_ (m_dm m) !! path = None →
  open_file path m = (m1, inr fd) →
  destroy_file path m1 = (m1, inl (FileNotFoundError path)) ∧
  ∃ m2 : machine,
    (close_file fd;; destroy_file path) m1 = (m2, inr tt) ∧
    os_files (m_os m2) = delete path (os_files (m_os m)).
Proof.
  intros Hst Hreg Hp Hopen.
  rewrite (open_file_fresh _ _ _ Hst Hreg Hp) in Hopen. simpl in Hopen.
  injection Hopen as <- <-. split.
  { apply destroy_file_open. simpl. rewrite lookup_insert_eq. by eexists. }
  unfold mbind, M_bind, bind.
  rewrite close_file_open with (path := path); [|simpl; apply lookup_insert_eq].
  erewrite destroy_file_run; [| |simpl|exact Hreg].
  - eexists. split; [done|]. simpl.
    unfold sys_close. destruct (os_fds _ !! _); simpl; by rewrite sys_open_files.
  - simpl. apply lookup_delete_eq.
  - unfold sys_close. destruct (os_fds _ !! _); simpl; by rewrite sys_open_files.
Qed.

(** X13: [destroy_file] of a closed regular file removes it and nothing
    else: afterwards [is_file] answers no, [open_file] throws
    [FileNotFoundError], the other files are as before and the tables of
    the manager are untouched; a second [destroy_file] throws
    [FileNotFoundError]. *)
Theorem destroy_file_removes (path : string) (m : machine) (st : inode) :
  path2fd_ (m_dm m) !! path = None →
  os_files (m_os m) !! path = Some st →
  i_kind st = S_IFREG →
  ∃ m' : machine,
    destroy_file path m = (m', inr tt) ∧
    m_dm m' = m_dm m ∧
    is_file path m' = (m', inr false) ∧
    open_file path m' = (m', inl (FileNotFoundError path)) ∧
    destroy_file path m' = (m', inl (FileNotFoundError path)) ∧
    ∀ p, p ≠ path → os_files (m_os m') !! p = os_files (m_os m) !! p.
Proof.
  intros Hp Hst Hreg. eexists. split; [by eapply destroy_file_run|].
  split; [done|]. split_and!.
  - rewrite is_file_run. simpl. by rewrite lookup_delete_eq.
  - apply open_file_not_found. simpl. intros st'. by rewrite lookup_delete_eq.
  - unfold destroy_file, sys_stat. run. rewrite Hp. simpl.
    by rewrite lookup_delete_eq.
  - intros p Hne. simpl. by rewrite lookup_delete_ne.
Qed.

Section CreateFile.

Variable mode_rw : bool.

Lemma create_file_run (path : string) (m : machine) (fd : Z) :
  os_files (m_os m) !! path = None →
  lowest_free_fd (m_os m) = Some fd →
  create_file mode_rw path m =
    (mk_machine
       (mk_OS (<[path := mk_inode S_IFREG mode_rw []]> (os_files (m_os m)))
          (os_fds (m_os m)) (os_nofile (m_os m)) (os_fsize (m_os m)))
       (m_dm m),
     inr tt).
Proof.
  intros Hno Hfree. apply lowest_free_fd_free in Hfree as Hfd. destruct Hfd as [Hfd Hpos].
  unfold create_file, Open, Close, sys_stat, sys_open_creat, sys_close. run.
  rewrite Hno, Hfree. simpl. rewrite Hno. simpl.
  destruct (Z.ltb_spec fd 0); [lia|]. simpl. rewrite lookup_insert_eq. simpl.
  by rewrite delete_insert_id.
Qed.

(** X14: a directory is a directory to [is_dir] and no file to [is_file],
    and it is in the way of all three: at its path [create_file] throws
    [FileExistsError], [open_file] throws [FileNotFoundError] and
    [destroy_file] throws [UnixError], and none of them changes
    anything. *)
Theorem directory_in_the_way (path : string) (m : machine) (st : inode) :
  os_files (m_os m) !! path = Some st →
  i_kind st = S_IFDIR →
  path2fd_ (m_dm m) !! path = None →
  is_dir path m = (m, inr true) ∧
  is_file path m = (m, inr false) ∧
  create_file mode_rw path m = (m, inl (FileExistsError path)) ∧
  open_file path m = (m, inl (FileNotFoundError path)) ∧
  destroy_file path m = (m, inl UnixError).
Proof.
  intros Hst Hdir Hp. split_and!.
  - unfold is_dir, sys_stat. run. by rewrite Hst, Hdir.
  - by rewrite is_file_run, Hst, Hdir.
  - unfold create_file, sys_stat. run. by rewrite Hst.
  - apply open_file_not_found. intros st'. rewrite Hst. congruence.
  - unfold destroy_file, Unlink, sys_stat, sys_unlink. run.
    rewrite Hp, Hst. simpl. rewrite Hst, Hdir. simpl. by destruct m.
Qed.

(** X15: [create_file] of a path at which nothing exists, with a
    descriptor to spare, makes an empty regular file and leaves it closed:
    the descriptors of the process and the tables of the manager are as
    before and [is_file] answers yes; a second [create_file] throws
    [FileExistsError]. *)
Theorem create_file_creates (path : string) (m : machine) (fd : Z) :
  os_files (m_os m) !! path = None →
  lowest_free_fd (m_os m) = Some fd →
  ∃ (m' : machine) (st : inode),
    create_file mode_rw path m = (m', inr tt) ∧
    os_files (m_os m') !! path = Some st ∧
    i_kind st = S_IFREG ∧ i_data st = [] ∧
    os_fds (m_os m') = os_fds (m_os m) ∧
    m_dm m' = m_dm m ∧
    is_file path m' = (m', inr true) ∧
    create_file mode_rw path m' = (m', inl (FileExistsError path)).
Proof.
  intros Hno Hfree. eexists _, _. split; [by eapply create_file_run|].
  simpl. rewrite lookup_insert_eq. split_and!; try done.
  - rewrite is_file_run. simpl. by rewrite lookup_insert_eq.
  - unfold create_file, sys_stat. run. by rewrite lookup_insert_eq.
Qed.

(** X16: [create_file] needs a descriptor although it leaves none in use:
    with no descriptor to spare it throws [UnixError] and creates
    nothing. *)
Theorem create_file_no_descriptor (path : string) (m : machine) :
  os_files (m_os m) !! path = None →
  lowest_free_fd (m_os m) = None →
  create_file mode_rw path m = (m, inl UnixError).
Proof.
  intros Hno Hfree. unfold create_file, Open, sys_stat, sys_open_creat. run.
  rewrite Hno, Hfree. simpl. by destruct m.
Qed.

(** X17: [create_file] followed by [destroy_file] of the same path leaves
    the machine as it was. *)
Theorem create_destroy_round_trip (path : string) (m : machine) (fd : Z) :
  os_files (m_os m) !! path = None →
  path2fd_ (m_dm m) !! path = None →
  lowest_free_fd (m_os m) = Some fd →
  (create_file mode_rw path;; destroy_file path) m = (m, inr tt).
Proof.
  intros Hno Hp Hfree. unfold mbind, M_bind, bind.
  rewrite (create_file_run _ _ _ Hno Hfree).
  erewrite destroy_file_run; [|done|simpl; apply lookup_insert_eq|done].
  simpl. rewrite delete_insert_id by done. by destruct m as [[] ?].
Qed.

(** X18: a file that [create_file] has made can be opened only if the
    permission bits it happened to get allow it: if they do not,
    [open_file] returns -1 as a handle and files the path under it. *)
Theorem create_then_open (path : string) (m : machine) (fd : Z) :
  os_files (m_os m) !! path = None →
  path2fd_ (m_dm m) !! path = None →
  lowest_free_fd (m_os m) = Some fd →
  ∃ (m' : machine) (h : Z),
    (create_file mode_rw path;; open_file path) m = (m', inr h) ∧
    h = (if mode_rw then fd else -1) ∧
    path2fd_ (m_dm m') !! path = Some h ∧
    fd2path_ (m_dm m') !! h = Some path.
Proof.
  intros Hno Hp Hfree. unfold mbind, M_bind, bind.
  rewrite (create_file_run _ _ _ Hno Hfree).
  erewrite open_file_fresh; [|simpl; apply lookup_insert_eq|done|done].
  simpl. unfold sys_open. simpl. rewrite lookup_insert_eq. simpl.
  unfold lowest_free_fd in *. simpl. rewrite Hfree.
  destruct mode_rw; simpl.
  - eexists _, _. split; [done|]. simpl. by rewrite !lookup_insert_eq.
  - eexists _, _. split; [done|]. simpl. by rewrite !lookup_insert_eq.
Qed.

End CreateFile.

(** * Further properties of the delete executor *)

Section DeleteExecutorFrame.

Context {File Ix : Type} `{!RmFileHandle File} `{!IxIndexHandle Ix}.

Implicit Types (ex : DeleteExecutor) (w : world (File := File) (Ix := Ix)).

(** The index handles that the loop over the columns [cs], which begin at
    position [i], leaves alone: those of other tables, of columns before
    [i] and of columns without an index. *)
Lemma column_loop_frame ex rec (cs : list ColMeta) : ∀ (i : nat) w,
  let r := for_each_from i (delete_from_index ex rec) cs w in
  db_ (w_sm r.1) = db_ (w_sm w) ∧
  ∀ (t : string) (p : nat),
    (t ≠ ex_tab_name_ ex ∨ (p < i)%nat ∨
     ∀ col, cs !! (p - i)%nat = Some col → index col = false) →
    ihs_ (w_sm r.1) !! (t, p) = ihs_ (w_sm w) !! (t, p).
Proof.
  induction cs as [|c cs IH]; intros i w; simpl; [done|].
  unfold mbind, M_bind, bind. destruct (index c) eqn:Hc; last first.
  { rewrite (delete_from_index_skip _ _ _ _ _ Hc).
    destruct (IH (S i) w) as [Hdb Hframe]. split; [done|].
    intros t p Hp. apply Hframe.
    destruct Hp as [?|[?|Hcol]]; [by left|right; left; lia|].
    destruct (decide (p < S i)%nat); [right; by left|].
    right. right. intros col Hl. apply Hcol.
    replace (p - i)%nat with (S (p - S i)) by lia. done. }
  rewrite (delete_from_index_run _ _ _ _ _ Hc).
  destruct (ihs_ (w_sm w) !! (ex_tab_name_ ex, i)) as [ih|]; [|done].
  destruct (delete_entry ih _ (w_txn w)) as [e|ih']; [done|].
  set (w1 := add_call _ (set_ih _ _ _ w)).
  destruct (IH (S i) w1) as [Hdb Hframe]. split; [done|].
  intros t p Hp.
  assert ((t, p) ≠ (ex_tab_name_ ex, i)) as Hne.
  { intros [= -> ->]. destruct Hp as [?|[?|Hcol]]; [done|lia|].
    rewrite Nat.sub_diag in Hcol. specialize (Hcol c eq_refl). congruence. }
  rewrite Hframe.
  - subst w1. simpl. by rewrite lookup_insert_ne.
  - destruct Hp as [?|[?|Hcol]]; [by left|right; left; lia|].
    destruct (decide (p < S i)%nat); [right; by left|].
    right. right. intros col Hl. apply Hcol.
    replace (p - i)%nat with (S (p - S i)) by lia. done.
Qed.

(** What [delete_rid] leaves behind, whether it throws or returns. *)
Lemma delete_rid_outcome ex rid w :
  let r := delete_rid ex rid w in
  db_ (w_sm r.1) = db_ (w_sm w) ∧
  (∀ t, t ≠ fh_ ex → fhs_ (w_sm r.1) !! t = fhs_ (w_sm w) !! t) ∧
  (∀ (t : string) (p : nat),
     (t ≠ ex_tab_name_ ex ∨
      ∀ col, cols (tab_ ex) !! p = Some col → index col = false) →
     ihs_ (w_sm r.1) !! (t, p) = ihs_ (w_sm w) !! (t, p)) ∧
  ((∃ e, r.2 = inl e ∧ w_txn r.1 = w_txn w ∧ fhs_ (w_sm r.1) = fhs_ (w_sm w)) ∨
   (r.2 = inr tt ∧
    ∃ (fh : File) (rec : RmRecord) (fh' : File),
      fhs_ (w_sm w) !! fh_ ex = Some fh ∧
      get_record fh rid = inr rec ∧
      delete_record fh rid = inr fh' ∧
      w_txn r.1 = AppendWriteRecord (delete_record_of (ex_tab_name_ ex) rid rec) (w_txn w) ∧
      fhs_ (w_sm r.1) = <[fh_ ex := fh']> (fhs_ (w_sm w)))).
Proof.
  simpl. rewrite delete_rid_run.
  destruct (fhs_ (w_sm w) !! fh_ ex) as [fh|] eqn:Hfh; last first.
  { split_and!; try done. left. by eexists. }
  destruct (get_record fh rid) as [e|rec] eqn:Hget.
  { split_and!; try done. left. by eexists. }
  pose proof (column_loop_calls ex rec (cols (tab_ ex)) 0%nat
                (add_call (EvGetRecord rid rec) w)) as (Htxn & Hfhs & _).
  pose proof (column_loop_frame ex rec (cols (tab_ ex)) 0%nat
                (add_call (EvGetRecord rid rec) w)) as (Hdb & Hihs).
  assert (∀ (t : string) (p : nat),
            (t ≠ ex_tab_name_ ex ∨
             ∀ col, cols (tab_ ex) !! p = Some col → index col = false) →
            ihs_ (w_sm (for_each_from 0%nat (delete_from_index ex rec) (cols (tab_ ex))
                          (add_call (EvGetRecord rid rec) w)).1) !! (t, p)
              = ihs_ (w_sm w) !! (t, p)) as Hihs'.
  { intros t p Hp. rewrite Hihs; [done|]. destruct Hp as [?|Hcol]; [by left|].
    right. right. by rewrite Nat.sub_0_r. }
  clear Hihs.
  destruct (for_each_from 0%nat (delete_from_index ex rec) (cols (tab_ ex)) _)
    as [w2 [e|[]]]; simpl in *.
  { split_and!; try done.
    - intros t _. by rewrite Hfhs.
    - left. by eexists. }
  rewrite Hfhs, Hfh.
  destruct (delete_record fh rid) as [e|fh'] eqn:Hdel; simpl.
  { split_and!; try done.
    - intros t _. by rewrite Hfhs.
    - left. by eexists. }
  split_and!; try done.
  - intros t Hne. by rewrite lookup_insert_ne, Hfhs.
  - right. split; [done|]. exists fh, rec, fh'. split_and!; try done.
    + by rewrite Htxn.
    + by rewrite Hfhs.
Qed.

(** The loop over the row identifiers stops at the first row that throws:
    the rows before it are out of the heap file and in the write set, the
    others are not. *)
Lemma rid_loop_outcome ex (rids : list Rid) : ∀ w,
  let r := for_each (delete_rid ex) rids w in
  let tab := ex_tab_name_ ex in
  db_ (w_sm r.1) = db_ (w_sm w) ∧
  (∀ t, t ≠ fh_ ex → fhs_ (w_sm r.1) !! t = fhs_ (w_sm w) !! t) ∧
  (∀ (t : string) (p : nat),
     (t ≠ tab ∨ ∀ col, cols (tab_ ex) !! p = Some col → index col = false) →
     ihs_ (w_sm r.1) !! (t, p) = ihs_ (w_sm w) !! (t, p)) ∧
  ∃ (k : nat) (recs : list RmRecord),
    (k ≤ length rids)%nat ∧ length recs = k ∧
    (r.2 = inr tt → k = length rids) ∧
    write_set_ (w_txn r.1)
      = write_set_ (w_txn w) ++ zip_with (delete_record_of tab) (take k rids) recs ∧
    ∀ fh, fhs_ (w_sm w) !! fh_ ex = Some fh →
      ∃ fh', fhs_ (w_sm r.1) !! fh_ ex = Some fh' ∧ deleted fh (take k rids) fh'.
Proof.
  induction rids as [|rid rids IH]; intros w; simpl.
  { split_and!; try done. exists 0%nat, []. rewrite app_nil_r.
    split_and!; try done. intros fh Hfh. by exists fh. }
  unfold mbind, M_bind, bind.
  destruct (delete_rid_outcome ex rid w) as (Hdb & Hfhs & Hihs & Hcase).
  simpl in *.
  destruct (delete_rid ex rid w) as [w1 [e|[]]] eqn:Hrun; simpl in *.
  - destruct Hcase as [(e' & _ & Htxn & Hsame)|[? _]]; [|done].
    split_and!; try done. exists 0%nat, []. rewrite Htxn, app_nil_r.
    split_and!; try done; [lia|]. intros fh Hfh. exists fh. by rewrite Hsame.
  - destruct Hcase as [(e' & ? & _)|(_ & fh & rec & fh' & Hfh & Hget & Hdel & Htxn & Hnew)];
      [done|].
    destruct (IH w1) as (Hdb' & Hfhs' & Hihs' & k & recs & Hk & Hlen & Hall & Hws & Hheap).
    split_and!.
    + by rewrite Hdb'.
    + intros t Hne. by rewrite Hfhs', Hfhs.
    + intros t p Hp. by rewrite Hihs', Hihs.
    + exists (S k), (rec :: recs). split_and!.
      * lia.
      * simpl. by rewrite Hlen.
      * intros Hok. by rewrite (Hall Hok).
      * rewrite Hws, Htxn. simpl. by rewrite <- app_assoc.
      * intros fh0 Hfh0. simplify_eq.
        destruct (Hheap fh') as (fh'' & Hl & Hdeleted).
        { rewrite Hnew. apply lookup_insert_eq. }
        exists fh''. split; [done|]. simpl. by exists fh'.
Qed.

Lemma get_all_index_files_run ex w :
  (get_all_index_files ex w).2 = inl OutOfRange ∧
  (∃ (i : nat) (col : ColMeta),
     cols (tab_ ex) !! i = Some col ∧ index col = true ∧
     ihs_ (w_sm w) !! (ex_tab_name_ ex, i) = None)
  ∨
  (get_all_index_files ex w).2 = inr tt ∧
  ¬ (∃ (i : nat) (col : ColMeta),
       cols (tab_ ex) !! i = Some col ∧ index col = true ∧
       ihs_ (w_sm w) !! (ex_tab_name_ ex, i) = None).
Proof.
  unfold get_all_index_files.
  assert (∀ (cs : list ColMeta) (i : nat),
            (for_each_from i
               (λ col_i col, if index col
                             then index_handle (ex_tab_name_ ex) col_i;; mret tt
                             else mret tt) cs w).2 = inl OutOfRange ∧
            (∃ (j : nat) (col : ColMeta),
               cs !! j = Some col ∧ index col = true ∧
               ihs_ (w_sm w) !! (ex_tab_name_ ex, (i + j)%nat) = None)
            ∨
            (for_each_from i
               (λ col_i col, if index col
                             then index_handle (ex_tab_name_ ex) col_i;; mret tt
                             else mret tt) cs w).2 = inr tt ∧
            ¬ (∃ (j : nat) (col : ColMeta),
               cs !! j = Some col ∧ index col = true ∧
               ihs_ (w_sm w) !! (ex_tab_name_ ex, (i + j)%nat) = None)) as Hloop.
  { induction cs as [|c cs IH]; intros i; simpl.
    { right. split; [done|]. by intros (j & col & ? & _). }
    unfold mbind, M_bind, bind.
    assert (∀ P : Prop,
              (index c = true →
               ihs_ (w_sm w) !! (ex_tab_name_ ex, i) = None → P) →
              ((∃ (j : nat) (col : ColMeta),
                  cs !! j = Some col ∧ index col = true ∧
                  ihs_ (w_sm w) !! (ex_tab_name_ ex, (S i + j)%nat) = None) → P) →
              (∃ (j : nat) (col : ColMeta),
                 (c :: cs) !! j = Some col ∧ index col = true ∧
                 ihs_ (w_sm w) !! (ex_tab_name_ ex, (i + j)%nat) = None) → P) as Hsplit.
    { intros P H0 HS ([|j] & col & Hj & Hcol & Hno); simpl in Hj.
      - simplify_eq. rewrite Nat.add_0_r in Hno. by apply H0.
      - apply HS. exists j, col. split_and!; try done.
        by rewrite Nat.add_succ_l, <- Nat.add_succ_r. }
    destruct (index c) eqn:Hc.
    - erun. destruct (ihs_ (w_sm w) !! (ex_tab_name_ ex, i)) as [ih|] eqn:Hih.
      + destruct (IH (S i)) as [[Hr Hex]|[Hr Hnex]].
        * left. split; [done|]. destruct Hex as (j & col & ? & ? & ?).
          exists (S j), col. split_and!; try done. by rewrite Nat.add_succ_r.
        * right. split; [done|]. intros Hex.
          apply (Hsplit False); [intros _ ?; congruence|done|done].
      + left. split; [done|]. exists 0%nat, c. by rewrite Nat.add_0_r.
    - destruct (IH (S i)) as [[Hr Hex]|[Hr Hnex]].
      + left. split; [done|]. destruct Hex as (j & col & ? & ? & ?).
        exists (S j), col. split_and!; try done. by rewrite Nat.add_succ_r.
      + right. split; [done|]. intros Hex.
        apply (Hsplit False); [intros ?; congruence|done|done]. }
  apply (Hloop (cols (tab_ ex)) 0%nat).
Qed.

End DeleteExecutorFrame.

Section DeleteExecutorMore.

Context {File Ix : Type} `{!RmFileHandle File} `{!IxIndexHandle Ix}.

Implicit Types (ex : DeleteExecutor) (w : world (File := File) (Ix := Ix)).

(** X19: whatever the collaborators do and whether it returns or throws,
    [Next] leaves the catalogue, the heap files of the other tables and
    the index handles of other tables and of columns without an index as
    they were. *)
Theorem Next_touches_own_table_only ex w :
  let r := Next ex w in
  db_ (w_sm r.1) = db_ (w_sm w) ∧
  (∀ t, t ≠ fh_ ex → fhs_ (w_sm r.1) !! t = fhs_ (w_sm w) !! t) ∧
  (∀ (t : string) (p : nat),
     (t ≠ ex_tab_name_ ex ∨
      ∀ col, cols (tab_ ex) !! p = Some col → index col = false) →
     ihs_ (w_sm r.1) !! (t, p) = ihs_ (w_sm w) !! (t, p)).
Proof.
  simpl. rewrite Next_run, get_all_index_files_world.
  destruct (rid_loop_outcome ex (rids_ ex) w) as (Hdb & Hfhs & Hihs & _).
  simpl in *.
  destruct (for_each (delete_rid ex) (rids_ ex) w) as [w' r].
  by destruct (get_all_index_files ex w).2.
Qed.

(** X20: an indexed column without an index handle makes [Next] throw
    [OutOfRange] before it touches any row: the world is as it was,
    whatever the row identifiers are. *)
Theorem Next_missing_index_handle ex w (i : nat) (col : ColMeta) :
  cols (tab_ ex) !! i = Some col →
  index col = true →
  ihs_ (w_sm w) !! (ex_tab_name_ ex, i) = None →
  Next ex w = (w, inl OutOfRange).
Proof.
  intros Hi Hcol Hno. rewrite Next_run, get_all_index_files_world.
  destruct (get_all_index_files_run ex w) as [[-> _]|[_ Hnex]].
  - by destruct (for_each (delete_rid ex) (rids_ ex) w).
  - destruct Hnex. by exists i, col.
Qed.

(** X21: [Next] on an empty batch returns without a row and changes
    nothing, provided every indexed column has its index handle. *)
Theorem Next_empty_batch ex w :
  rids_ ex = [] →
  (∀ (i : nat) (col : ColMeta),
     cols (tab_ ex) !! i = Some col → index col = true →
     is_Some (ihs_ (w_sm w) !! (ex_tab_name_ ex, i))) →
  Next ex w = (w, inr None).
Proof.
  intros Hrids Hall. rewrite Next_run, get_all_index_files_world, Hrids. simpl.
  destruct (get_all_index_files_run ex w) as [[_ Hex]|[-> _]]; [|done].
  destruct Hex as (i & col & Hi & Hcol & Hno).
  destruct (Hall i col Hi Hcol) as [ih Hih]. congruence.
Qed.

(** X22: [Next] stops at the first row that throws and undoes nothing:
    whether it returns or throws, the rows it has taken out of the heap
    file and the rows it has appended a write record for are the same
    first [k] row identifiers of the batch, in their order; [k] is the
    whole batch when it returns. *)
Theorem Next_stops_at_first_failure ex w :
  let r := Next ex w in
  ∃ (k : nat) (recs : list RmRecord),
    (k ≤ length (rids_ ex))%nat ∧ length recs = k ∧
    (r.2 = inr None → k = length (rids_ ex)) ∧
    write_set_ (w_txn r.1)
      = write_set_ (w_txn w)
          ++ zip_with (mk_WriteRecord DELETE_TUPLE (ex_tab_name_ ex))
               (take k (rids_ ex)) recs ∧
    ∀ fh, fhs_ (w_sm w) !! fh_ ex = Some fh →
      ∃ fh', fhs_ (w_sm r.1) !! fh_ ex = Some fh' ∧ deleted fh (take k (rids_ ex)) fh'.
Proof.
  simpl. rewrite Next_run, get_all_index_files_world.
  destruct (rid_loop_outcome ex (rids_ ex) w)
    as (_ & _ & _ & k & recs & Hk & Hlen & Hall & Hws & Hheap).
  simpl in *.
  destruct (for_each (delete_rid ex) (rids_ ex) w) as [w' r].
  destruct (get_all_index_files ex w).2; simpl in *.
  - exists 0%nat, []. rewrite app_nil_r. split_and!; try done; [lia|].
    intros fh Hfh. by exists fh.
  - exists k, recs. split_and!; try done.
    intros Hok. apply Hall. by destruct r as [|[]].
Qed.

End DeleteExecutorMore.

(** On the heap file of the model, a batch that goes through has no row
    identifier twice and finds every row, and the heap file it leaves
    behind is the old one without these rows. *)
Lemma deleted_records (rids : list Rid) : ∀ fh fh' : HeapFile,
  deleted fh rids fh' →
  NoDup rids ∧
  (∀ rid, rid ∈ rids → is_Some (records fh !! rid)) ∧
  ∀ rid, records fh' !! rid
           = if decide (rid ∈ rids) then None else records fh !! rid.
Proof.
  induction rids as [|r rids IH]; intros fh fh' Hdel; simpl in Hdel.
  { subst fh'. split_and!; [constructor| |done].
    intros rid Hin. by apply not_elem_of_nil in Hin. }
  destruct Hdel as (fh1 & Hdel1 & Hrest).
  destruct (records fh !! r) as [rec|] eqn:Hr; [|done].
  injection Hdel1 as <-.
  destruct (IH _ _ Hrest) as (Hnodup & Hall & Hafter). simpl in *.
  split_and!.
  - constructor; [|done]. intros Hin. destruct (Hall r Hin) as [x Hx].
    by rewrite lookup_delete_eq in Hx.
  - intros rid [->|Hin]%elem_of_cons; [by eexists|].
    destruct (Hall rid Hin) as [x Hx].
    apply lookup_delete_Some in Hx as [_ Hx]. by eexists.
  - intros rid. rewrite Hafter.
    destruct (decide (rid ∈ rids)) as [Hin|Hin];
      destruct (decide (rid ∈ r :: rids)) as [Hin'|Hin']; try done.
    + destruct Hin'. by right.
    + apply elem_of_cons in Hin' as [->|?]; [apply lookup_delete_eq|done].
    + apply lookup_delete_ne. intros ->. apply Hin'. by left.
Qed.

(** X23: with the heap file of the model, a [Next] that returns has had
    a batch without repeated row identifiers, all of them in the heap
    file; afterwards exactly these rows are gone from the heap file and
    every other row is as before. *)
Theorem Next_removes_rows `{!IxIndexHandle Ix}
    (ex : DeleteExecutor) (w w' : world (File := HeapFile) (Ix := Ix))
    (fh : HeapFile) :
  Next ex w = (w', inr None) →
  fhs_ (w_sm w) !! fh_ ex = Some fh →
  NoDup (rids_ ex) ∧
  (∀ rid, rid ∈ rids_ ex → is_Some (records fh !! rid)) ∧
  ∃ fh' : HeapFile,
    fhs_ (w_sm w') !! fh_ ex = Some fh' ∧
    ∀ rid, records fh' !! rid
             = if decide (rid ∈ rids_ ex) then None else records fh !! rid.
Proof.
  intros Hrun Hfh.
  destruct (rid_loop_outcome ex (rids_ ex) w)
    as (_ & _ & _ & k & recs & _ & _ & Hall & _ & Hheap).
  rewrite Next_run, get_all_index_files_world in Hrun. simpl in *.
  destruct (for_each (delete_rid ex) (rids_ ex) w) as [w1 [e|[]]];
    destruct (get_all_index_files ex w).2; simplify_eq.
  rewrite (Hall eq_refl), firstn_all in Hheap.
  destruct (Hheap fh Hfh) as (fh' & Hfh' & Hdel).
  destruct (deleted_records _ _ _ Hdel) as (Hnodup & Hin & Hafter).
  split_and!; try done. by exists fh'.
Qed.

Section IndexSizes.

Context {File : Type} `{!RmFileHandle File}.

Implicit Types (ex : DeleteExecutor) (w : world (File := File) (Ix := BTreeIndex)).

(** One row that goes through takes one entry out of the index of every
    indexed column. *)
Lemma delete_rid_index_sizes ex rid w w' :
  delete_rid ex rid w = (w', inr tt) →
  indexes_built ex w 0 (cols (tab_ ex)) →
  ∀ (i : nat) (col : ColMeta) (ih : BTreeIndex),
    cols (tab_ ex) !! i = Some col → index col = true →
    ihs_ (w_sm w) !! (ex_tab_name_ ex, i) = Some ih →
    ∃ ih' : BTreeIndex,
      ihs_ (w_sm w') !! (ex_tab_name_ ex, i) = Some ih' ∧
      key_len ih' = key_len ih ∧
      S (length (entries ih')) = length (entries ih).
Proof.
  intros Hrun Hbuilt i col ih Hi Hcol Hih. rewrite delete_rid_run in Hrun.
  destruct (fhs_ (w_sm w) !! fh_ ex) as [fh|]; [|done].
  destruct (get_record fh rid) as [e|rec]; [done|].
  set (w0 := add_call (EvGetRecord rid rec) w) in *.
  pose proof (column_loop_key_absent ex rec (cols (tab_ ex)) 0%nat w0 Hbuilt) as Habsent.
  pose proof (column_loop_key_present ex rec (cols (tab_ ex)) 0%nat w0 Hbuilt) as Hpresent.
  simpl in Hpresent.
  destruct (for_each_from 0%nat (delete_from_index ex rec) (cols (tab_ ex)) w0)
    as [w2 [e|[]]]; [done|]. simpl in *.
  destruct Hpresent as (_ & _ & Hdel).
  { intros j c ihj Hj Hc Hihj Hno. discriminate Habsent. by exists j, c, ihj. }
  destruct (Hdel i col ih Hi Hcol Hih) as (es & Hrm & Hlook).
  apply remove_key_Some in Hrm as (before & rid' & after & Hes & _ & ->).
  exists (mk_BTreeIndex (key_len ih) (before ++ after)). split_and!.
  - destruct (fhs_ (w_sm w2) !! fh_ ex) as [fh2|]; [|done].
    destruct (delete_record fh2 rid); [done|]. by simplify_eq.
  - done.
  - simpl. rewrite Hes, !length_app. simpl. lia.
Qed.

Lemma rid_loop_index_sizes ex (rids : list Rid) : ∀ w w',
  for_each (delete_rid ex) rids w = (w', inr tt) →
  indexes_built ex w 0 (cols (tab_ ex)) →
  ∀ (i : nat) (col : ColMeta) (ih : BTreeIndex),
    cols (tab_ ex) !! i = Some col → index col = true →
    ihs_ (w_sm w) !! (ex_tab_name_ ex, i) = Some ih →
    ∃ ih' : BTreeIndex,
      ihs_ (w_sm w') !! (ex_tab_name_ ex, i) = Some ih' ∧
      key_len ih' = key_len ih ∧
      (length (entries ih') + length rids)%nat = length (entries ih).
Proof.
  induction rids as [|rid rids IH]; intros w w' Hrun Hbuilt i col ih Hi Hcol Hih.
  { simpl in Hrun. injection Hrun as <-. exists ih. by split_and!. }
  simpl in Hrun. unfold mbind, M_bind, bind in Hrun.
  destruct (delete_rid ex rid w) as [w1 [e|[]]] eqn:Hrow; [done|].
  pose proof (delete_rid_index_sizes ex rid w w1 Hrow Hbuilt) as Hstep.
  destruct (Hstep i col ih Hi Hcol Hih) as (ih1 & Hih1 & Hlen1 & Hsize1).
  destruct (IH w1 w' Hrun) with (i := i) (col := col) (ih := ih1)
    as (ih' & Hih' & Hlen' & Hsize'); try done.
  - intros j c Hj Hc. destruct (Hbuilt j c Hj Hc) as (ihj & Hihj & Hlenj).
    destruct (Hstep j c ihj Hj Hc Hihj) as (ihj' & ? & ? & _).
    exists ihj'. split; [done|]. congruence.
  - exists ih'. split_and!; [done|congruence|simpl; lia].
Qed.

(** X24: with indexes that are searched by key, a [Next] that returns has
    taken one entry per row identifier out of the index of every indexed
    column. *)
Theorem Next_index_sizes ex w w' (i : nat) (col : ColMeta) (ih : BTreeIndex) :
  Next ex w = (w', inr None) →
  indexes_built ex w 0 (cols (tab_ ex)) →
  cols (tab_ ex) !! i = Some col → index col = true →
  ihs_ (w_sm w) !! (ex_tab_name_ ex, i) = Some ih →
  ∃ ih' : BTreeIndex,
    ihs_ (w_sm w') !! (ex_tab_name_ ex, i) = Some ih' ∧
    key_len ih' = key_len ih ∧
    (length (entries ih') + length (rids_ ex))%nat = length (entries ih).
Proof.
  intros Hrun Hbuilt Hi Hcol Hih.
  rewrite Next_run, get_all_index_files_world in Hrun.
  destruct (for_each (delete_rid ex) (rids_ ex) w) as [w1 [e|[]]] eqn:Hloop;
    destruct (get_all_index_files ex w).2; simplify_eq.
  by eapply rid_loop_index_sizes.
Qed.

End IndexSizes.

(** * Instances of the further properties *)

Lemma WriteLog_appends_witness :
  ∃ (m2 : machine) (f' : inode),
    WriteLog "db.log" [b 7; b 8; b 9] 2 m_logging = (m2, inr tt) ∧
    m_dm m2 = m_dm m_logging ∧
    os_files (m_os m2) !! ofd_path (mk_ofd "db.log" 3) = Some f' ∧
    i_data f' = i_data log_inode ++ take (Z.to_nat 2) [b 7; b 8; b 9] ∧
    ∀ p, p ≠ ofd_path (mk_ofd "db.log" 3) →
         os_files (m_os m2) !! p = os_files (m_os m_logging) !! p.
Proof.
  apply (WriteLog_appends "db.log" m_logging m_logging [b 7; b 8; b 9] 2
           (mk_ofd "db.log" 3) log_inode).
  - vm_compute. reflexivity.
  - vm_compute. reflexivity.
  - vm_compute. reflexivity.
  - unfold INT_MAX. lia.
  - simpl. lia.
  - vm_compute. discriminate.
Defined.

Lemma WriteLog_short_write_witness :
  ∃ (m2 : machine) (f' : inode),
    WriteLog "db.log" [b 7; b 8; b 9] 3 m_logging_tight = (m2, inl UnixError) ∧
    os_files (m_os m2) !! ofd_path (mk_ofd "db.log" 1) = Some f' ∧
    i_data f' = i_data log_inode
      ++ take (Z.to_nat (os_fsize (m_os m_logging_tight)
                           - Z.of_nat (length (i_data log_inode))))
           [b 7; b 8; b 9].
Proof.
  apply (WriteLog_short_write "db.log" m_logging_tight m_logging_tight
           [b 7; b 8; b 9] 3 (mk_ofd "db.log" 1) log_inode).
  - vm_compute. reflexivity.
  - vm_compute. reflexivity.
  - vm_compute. reflexivity.
  - unfold INT_MAX. lia.
  - simpl. lia.
  - vm_compute. reflexivity.
Defined.

Lemma WriteLog_twice_ReadLog_witness :
  ∃ m' : machine,
    (WriteLog "db.log" [b 7; b 8] (Z.of_nat (length [b 7; b 8]));;
     WriteLog "db.log" [b 9] (Z.of_nat (length [b 9]));;
     ReadLog "db.log" [b 0; b 0; b 0; b 0]
       (Z.of_nat (length [b 7; b 8] + length [b 9]))
       (Z.of_nat (length (i_data log_inode))) 0) m_logging
      = (m', inr (true, ([b 7; b 8] ++ [b 9])
                          ++ drop (Z.to_nat (Z.of_nat (length [b 7; b 8] + length [b 9])))
                               [b 0; b 0; b 0; b 0])).
Proof.
  apply (WriteLog_twice_ReadLog "db.log" m_logging m_logging [b 7; b 8] [b 9]
           [b 0; b 0; b 0; b 0] (mk_ofd "db.log" 3) log_inode).
  - vm_compute. reflexivity.
  - vm_compute. discriminate.
  - vm_compute. reflexivity.
  - reflexivity.
  - vm_compute. reflexivity.
  - simpl. lia.
  - unfold INT_MAX. simpl. lia.
  - vm_compute. discriminate.
  - simpl. lia.
Defined.

Lemma write_page_keeps_other_bytes_witness :
  let pos := Z.to_nat (0 * 4096) in
  let k := Z.to_nat 2 in
  ∃ (m' : machine) (f' : inode),
    write_page 4096 0 0 [b 9; b 8] 2 m_opened = (m', inr tt) ∧
    os_files (m_os m') !! ofd_path (mk_ofd "t.tbl" 0) = Some f' ∧
    length (i_data f')
      = (length (i_data (mk_inode S_IFREG true [b 1; b 2; b 3])) `max` (pos + k))%nat ∧
    (∀ (i : nat) (x : byte),
       i_data (mk_inode S_IFREG true [b 1; b 2; b 3]) !! i = Some x →
       (i < pos ∨ pos + k ≤ i)%nat →
       i_data f' !! i = Some x) ∧
    (∀ i : nat,
       (length (i_data (mk_inode S_IFREG true [b 1; b 2; b 3])) ≤ i < pos)%nat →
       i_data f' !! i = Some Byte.x00) ∧
    (∀ p, p ≠ ofd_path (mk_ofd "t.tbl" 0) →
          os_files (m_os m') !! p = os_files (m_os m_opened) !! p).
Proof.
  apply (write_page_keeps_other_bytes 4096 m_opened 0 0 2 [b 9; b 8]
           (mk_ofd "t.tbl" 0) (mk_inode S_IFREG true [b 1; b 2; b 3])).
  - vm_compute. reflexivity.
  - vm_compute. reflexivity.
  - unfold INT_MAX. lia.
  - lia.
  - unfold INT_MAX. lia.
  - simpl. lia.
  - vm_compute. discriminate.
Defined.

Lemma page_io_bad_handle_or_page_witness :
  read_page 4096 7 0 [b 0; b 0] 2 (m_small 65536)
    = (m_small 65536, inl UnixError) ∧
  write_page 4096 7 0 [b 0; b 0] 2 (m_small 65536)
    = (m_small 65536, inl UnixError).
Proof.
  apply (page_io_bad_handle_or_page 4096 (m_small 65536) 7 0 2 [b 0; b 0]).
  - lia.
  - unfold in_int, INT_MIN, INT_MAX. lia.
  - left. vm_compute. reflexivity.
Defined.

Lemma read_page_past_end_witness :
  ∃ m' : machine,
    read_page 4096 0 1 [b 4; b 5] 2 m_opened = (m', inr [b 4; b 5]) ∧
    m_dm m' = m_dm m_opened ∧ os_files (m_os m') = os_files (m_os m_opened).
Proof.
  apply (read_page_past_end 4096 m_opened 0 1 2 [b 4; b 5]
           (mk_ofd "t.tbl" 0) (mk_inode S_IFREG true [b 1; b 2; b 3])).
  - vm_compute. reflexivity.
  - vm_compute. reflexivity.
  - unfold INT_MAX. lia.
  - lia.
  - unfold INT_MAX. lia.
  - simpl. lia.
  - simpl. lia.
Defined.

Lemma page_counter_survives_reopen_witness :
  (AllocatePage 16 0
     (run_ops [OpOpen "t.tbl"; OpClose 0; OpOpen "db.log"] m_allocated).1).2
    = inr 2.
Proof.
  apply (page_counter_survives_reopen 16 0 2
           [OpOpen "t.tbl"; OpClose 0; OpOpen "db.log"] m_allocated).
  - lia.
  - vm_compute. reflexivity.
Defined.

Lemma deallocated_page_not_reused_witness :
  ∃ (m' : machine) (ps : list Z) (p : Z),
    (ps ← allocate_pages 16 0 3;
     for_each DeallocatePage [1; 2];;
     p ← AllocatePage 16 0;
     mret (ps, p)) (m_small 65536) = (m', inr (ps, p)) ∧
    length ps = 3%nat ∧
    ∀ q, q ∈ ps → q < p.
Proof.
  apply (deallocated_page_not_reused 16 0 0 3 [1; 2] (m_small 65536)).
  - lia.
  - vm_compute. reflexivity.
  - unfold in_int, INT_MIN, INT_MAX. lia.
  - unfold INT_MAX. simpl. lia.
Defined.

Lemma table_sound_while_open_succeeds_witness :
  oft_inv (m_dm (run_ops [OpOpen "t.tbl"; OpOpen "db.log"; OpClose 0]
                   (m_small 65536)).1) ∧
  fds_open (run_ops [OpOpen "t.tbl"; OpOpen "db.log"; OpClose 0] (m_small 65536)).1.
Proof.
  apply (table_sound_while_open_succeeds
           [OpOpen "t.tbl"; OpOpen "db.log"; OpClose 0] (m_small 65536)).
  - intros p fd. vm_compute. split; intros; discriminate.
  - intros fd p Hfd. vm_compute in Hfd. discriminate.
  - vm_compute. reflexivity.
Defined.


Lemma GetFileFd_GetFileName_witness :
  ∃ (fd : Z) (m1 m2 : machine),
    GetFileFd "t.tbl" (m_small 65536) = (m1, inr fd) ∧
    GetFileName fd m1 = (m1, inr "t.tbl") ∧
    GetFileFd "t.tbl" m1 = (m1, inr fd) ∧
    close_file fd m1 = (m2, inr tt) ∧
    GetFileName fd m2 = (m2, inl (FileNotOpenError fd)).
Proof.
  apply (GetFileFd_GetFileName "t.tbl" (m_small 65536)
           (mk_inode S_IFREG true [b 1; b 2; b 3])).
  - intros p fd. vm_compute. split; intros; discriminate.
  - vm_compute. reflexivity.
  - reflexivity.
Defined.

Lemma destroy_file_needs_close_witness :
  destroy_file "t.tbl" m_opened = (m_opened, inl (FileNotFoundError "t.tbl")) ∧
  ∃ m2 : machine,
    (close_file 0;; destroy_file "t.tbl") m_opened = (m2, inr tt) ∧
    os_files (m_os m2) = delete "t.tbl" (os_files (m_os (m_small 65536))).
Proof.
  apply (destroy_file_needs_close "t.tbl" (m_small 65536) m_opened
           (mk_inode S_IFREG true [b 1; b 2; b 3]) 0).
  - vm_compute. reflexivity.
  - reflexivity.
  - vm_compute. reflexivity.
  - vm_compute. reflexivity.
Defined.

Lemma destroy_file_removes_witness :
  ∃ m' : machine,
    destroy_file "t.tbl" (m_small 65536) = (m', inr tt) ∧
    m_dm m' = m_dm (m_small 65536) ∧
    is_file "t.tbl" m' = (m', inr false) ∧
    open_file "t.tbl" m' = (m', inl (FileNotFoundError "t.tbl")) ∧
    destroy_file "t.tbl" m' = (m', inl (FileNotFoundError "t.tbl")) ∧
    ∀ p, p ≠ "t.tbl" → os_files (m_os m') !! p = os_files (m_os (m_small 65536)) !! p.
Proof.
  apply (destroy_file_removes "t.tbl" (m_small 65536)
           (mk_inode S_IFREG true [b 1; b 2; b 3])).
  - vm_compute. reflexivity.
  - vm_compute. reflexivity.
  - reflexivity.
Defined.

Lemma directory_in_the_way_witness :
  is_dir "data" m_directory = (m_directory, inr true) ∧
  is_file "data" m_directory = (m_directory, inr false) ∧
  create_file true "data" m_directory = (m_directory, inl (FileExistsError "data")) ∧
  open_file "data" m_directory = (m_directory, inl (FileNotFoundError "data")) ∧
  destroy_file "data" m_directory = (m_directory, inl UnixError).
Proof.
  apply (directory_in_the_way true "data" m_directory (mk_inode S_IFDIR true [])).
  - vm_compute. reflexivity.
  - reflexivity.
  - vm_compute. reflexivity.
Defined.

Lemma create_file_creates_witness :
  ∃ (m' : machine) (st : inode),
    create_file true "u.tbl" (m_small 65536) = (m', inr tt) ∧
    os_files (m_os m') !! "u.tbl" = Some st ∧
    i_kind st = S_IFREG ∧ i_data st = [] ∧
    os_fds (m_os m') = os_fds (m_os (m_small 65536)) ∧
    m_dm m' = m_dm (m_small 65536) ∧
    is_file "u.tbl" m' = (m', inr true) ∧
    create_file true "u.tbl" m' = (m', inl (FileExistsError "u.tbl")).
Proof.
  apply (create_file_creates true "u.tbl" (m_small 65536) 0).
  - vm_compute. reflexivity.
  - vm_compute. reflexivity.
Defined.

Lemma create_file_no_descriptor_witness :
  create_file true "u.tbl" m_no_descriptor = (m_no_descriptor, inl UnixError).
Proof.
  apply (create_file_no_descriptor true "u.tbl" m_no_descriptor).
  - vm_compute. reflexivity.
  - vm_compute. reflexivity.
Defined.

Lemma create_destroy_round_trip_witness :
  (create_file false "u.tbl";; destroy_file "u.tbl") (m_small 65536)
    = (m_small 65536, inr tt).
Proof.
  apply (create_destroy_round_trip false "u.tbl" (m_small 65536) 0).
  - vm_compute. reflexivity.
  - vm_compute. reflexivity.
  - vm_compute. reflexivity.
Defined.

Lemma create_then_open_witness :
  ∃ (m' : machine) (h : Z),
    (create_file false "u.tbl";; open_file "u.tbl") (m_small 65536) = (m', inr h) ∧
    h = (if false then 0 else -1) ∧
    path2fd_ (m_dm m') !! "u.tbl" = Some h ∧
    fd2path_ (m_dm m') !! h = Some "u.tbl".
Proof.
  apply (create_then_open false "u.tbl" (m_small 65536) 0).
  - vm_compute. reflexivity.
  - vm_compute. reflexivity.
  - vm_compute. reflexivity.
Defined.

Lemma Next_missing_index_handle_witness :
  Next ex_T w_T_no_index = (w_T_no_index, inl OutOfRange).
Proof.
  apply (Next_missing_index_handle ex_T w_T_no_index 0%nat (mk_ColMeta "id" 4 0 true)).
  - reflexivity.
  - reflexivity.
  - vm_compute. reflexivity.
Defined.

Lemma Next_empty_batch_witness :
  Next ex_T_empty (w_T [(key_5, R1)]) = (w_T [(key_5, R1)], inr None).
Proof.
  apply (Next_empty_batch ex_T_empty (w_T [(key_5, R1)])).
  - reflexivity.
  - intros [|[|i]] col Hi Hcol; simpl in Hi; simplify_eq.
    vm_compute. by eexists.
Defined.

Lemma Next_removes_rows_witness :
  NoDup (rids_ ex_T) ∧
  (∀ rid, rid ∈ rids_ ex_T →
          is_Some (records (mk_HeapFile {[ R1 := row_5x ]}) !! rid)) ∧
  ∃ fh' : HeapFile,
    fhs_ (w_sm (Next ex_T (w_T [(key_5, R1)])).1) !! fh_ ex_T = Some fh' ∧
    ∀ rid, records fh' !! rid
             = if decide (rid ∈ rids_ ex_T) then None
               else records (mk_HeapFile {[ R1 := row_5x ]}) !! rid.
Proof.
  apply (Next_removes_rows ex_T (w_T [(key_5, R1)])
           (Next ex_T (w_T [(key_5, R1)])).1 (mk_HeapFile {[ R1 := row_5x ]})).
  - vm_compute. reflexivity.
  - vm_compute. reflexivity.
Defined.

Lemma Next_index_sizes_witness :
  ∃ ih' : BTreeIndex,
    ihs_ (w_sm (Next ex_T (w_T [(key_5, R2); (key_5, R1)])).1) !! (ex_tab_name_ ex_T, 0%nat)
      = Some ih' ∧
    key_len ih' = key_len (mk_BTreeIndex 4 [(key_5, R2); (key_5, R1)]) ∧
    (length (entries ih') + length (rids_ ex_T))%nat
      = length (entries (mk_BTreeIndex 4 [(key_5, R2); (key_5, R1)])).
Proof.
  apply (Next_index_sizes ex_T (w_T [(key_5, R2); (key_5, R1)])
           (Next ex_T (w_T [(key_5, R2); (key_5, R1)])).1 0%nat
           (mk_ColMeta "id" 4 0 true)).
  - vm_compute. reflexivity.
  - intros [|[|j]] col Hj Hcol; simpl in Hj; simplify_eq.
    exists (mk_BTreeIndex 4 [(key_5, R2); (key_5, R1)]). split; reflexivity.
  - reflexivity.
  - reflexivity.
  - vm_compute. reflexivity.
Defined.

(** * The order of the effects of [Next] *)

Section NextOrder.

Context {File Ix : Type} `{!RmFileHandle File} `{!IxIndexHandle Ix}.

Implicit Types (ex : DeleteExecutor) (w : world (File := File) (Ix := Ix)).

Lemma perform_app (fh_name : string) (t1 t2 : list event)
    (s s1 : SmManager (File := File) (Ix := Ix) * Transaction) :
  perform fh_name t1 s = Some s1 →
  perform fh_name (t1 ++ t2) s = perform fh_name t2 s1.
Proof.
  revert s. induction t1 as [|e t1 IH]; intros s Hrun; simpl in *.
  - by simplify_eq.
  - destruct (perform_event fh_name e s) as [s'|]; [|done]. by apply IH.
Qed.

(** The loop over the columns has done to the index handles what the
    index deletions of the schedule do, one after the other; where it
    threw, the first few of them. *)
Lemma column_loop_performs ex rec (fh_name : string) (cs : list ColMeta) :
  ∀ (i : nat) w,
  let r := for_each_from i (delete_from_index ex rec) cs w in
  ∃ t : list event,
    w_calls r.1 = w_calls w ++ t ∧
    t `prefix_of` index_events (ex_tab_name_ ex) rec i cs ∧
    perform fh_name t (state_of w) = Some (state_of r.1) ∧
    (r.2 = inr tt → t = index_events (ex_tab_name_ ex) rec i cs).
Proof.
  induction cs as [|c cs IH]; intros i w; simpl.
  - exists []. rewrite app_nil_r. by split_and!.
  - unfold mbind, M_bind, bind. destruct (index c) eqn:Hcol.
    + rewrite (delete_from_index_run _ _ _ _ _ Hcol).
      destruct (ihs_ (w_sm w) !! (ex_tab_name_ ex, i)) as [ih|] eqn:Hih; last first.
      { simpl. exists []. rewrite app_nil_r.
        split_and!; [done|apply prefix_nil|done|done]. }
      destruct (delete_entry ih _ (w_txn w)) as [e|ih'] eqn:Hdel.
      { simpl. exists []. rewrite app_nil_r.
        split_and!; [done|apply prefix_nil|done|done]. }
      destruct (IH (S i) (with_index ex i ih' (drop (offset c) (data rec)) w))
        as (t & Hcalls & Hpre & Hperform & Hall).
      exists (EvDeleteEntry (ex_tab_name_ ex) i (drop (offset c) (data rec)) :: t).
      split_and!.
      * rewrite Hcalls. simpl. by rewrite <- app_assoc.
      * simpl. by apply prefix_cons.
      * simpl. rewrite Hih, Hdel. exact Hperform.
      * intros Hok. simpl. by rewrite (Hall Hok).
    + rewrite (delete_from_index_skip _ _ _ _ _ Hcol). simpl. apply IH.
Qed.

(** One row. *)
Lemma delete_rid_performs ex rid w :
  let r := delete_rid ex rid w in
  let tab := ex_tab_name_ ex in
  (∃ e, r.2 = inl e ∧ r.1 = w) ∨
  (∃ (rec : RmRecord) (t : list event),
     w_calls r.1 = w_calls w ++ t ∧
     t `prefix_of` row_events tab (cols (tab_ ex)) (rid, rec) ∧
     perform (fh_ ex) t (state_of w) = Some (state_of r.1) ∧
     (r.2 = inr tt → t = row_events tab (cols (tab_ ex)) (rid, rec))).
Proof.
  intros r tab. subst r. rewrite delete_rid_run.
  destruct (fhs_ (w_sm w) !! fh_ ex) as [fh|] eqn:Hfh; [|left; by eexists].
  destruct (get_record fh rid) as [e|rec] eqn:Hget; [left; by eexists|].
  right. exists rec.
  assert (perform (fh_ ex) [EvGetRecord rid rec] (state_of w)
            = Some (state_of (add_call (EvGetRecord rid rec) w))) as Hfetch.
  { simpl. rewrite Hfh, Hget. by rewrite decide_True. }
  pose proof (column_loop_performs ex rec (fh_ ex) (cols (tab_ ex)) 0%nat
                (add_call (EvGetRecord rid rec) w)) as Hloop.
  simpl in Hloop.
  destruct (for_each_from 0%nat (delete_from_index ex rec) (cols (tab_ ex)) _)
    as [w2 [e|[]]]; simpl in Hloop;
    destruct Hloop as (t & Hcalls & Hpre & Hperform & Hall).
  { exists (EvGetRecord rid rec :: t). split_and!; try done.
    - simpl. rewrite Hcalls. by rewrite <- app_assoc.
    - unfold row_events. simpl. apply prefix_cons.
      etrans; [exact Hpre|]. by apply prefix_app_r.
    - change (EvGetRecord rid rec :: t) with ([EvGetRecord rid rec] ++ t).
      by rewrite (perform_app _ _ _ _ _ Hfetch). }
  specialize (Hall eq_refl). subst t.
  assert (perform (fh_ ex)
            ([EvGetRecord rid rec] ++ index_events tab rec 0 (cols (tab_ ex)))
            (state_of w) = Some (state_of w2)) as Hindexes.
  { by rewrite (perform_app _ _ _ _ _ Hfetch). }
  destruct (fhs_ (w_sm w2) !! fh_ ex) as [fh2|] eqn:Hfh2; simpl.
  2:{ exists (EvGetRecord rid rec :: index_events tab rec 0 (cols (tab_ ex))).
      split_and!; try done.
      - rewrite Hcalls. by rewrite <- app_assoc.
      - unfold row_events. simpl. apply prefix_cons. by apply prefix_app_r. }
  destruct (delete_record fh2 rid) as [e|fh'] eqn:Hdel; simpl.
  { exists (EvGetRecord rid rec :: index_events tab rec 0 (cols (tab_ ex))).
    split_and!; try done.
    - rewrite Hcalls. by rewrite <- app_assoc.
    - unfold row_events. simpl. apply prefix_cons. by apply prefix_app_r. }
  exists (row_events tab (cols (tab_ ex)) (rid, rec)).
  split_and!; try done.
  - rewrite Hcalls. unfold row_events. simpl. by rewrite <- !app_assoc.
  - unfold row_events. rewrite app_assoc.
    rewrite (perform_app _ _ _ _ _ Hindexes). simpl.
    by rewrite Hfh2, Hdel.
Qed.

(** The loop over the row identifiers. *)
Lemma rid_loop_performs ex (rids : list Rid) : ∀ w,
  let r := for_each (delete_rid ex) rids w in
  let tab := ex_tab_name_ ex in
  ∃ (recs : list RmRecord) (t : list event),
    w_calls r.1 = w_calls w ++ t ∧
    t `prefix_of` schedule tab (cols (tab_ ex)) (zip rids recs) ∧
    perform (fh_ ex) t (state_of w) = Some (state_of r.1) ∧
    (r.2 = inr tt →
       length recs = length rids ∧
       t = schedule tab (cols (tab_ ex)) (zip rids recs)).
Proof.
  induction rids as [|rid rids IH]; intros w; simpl.
  - exists [], []. rewrite !app_nil_r. by split_and!.
  - unfold mbind, M_bind, bind.
    pose proof (delete_rid_performs ex rid w) as Hrow. simpl in Hrow.
    destruct (delete_rid ex rid w) as [w1 [e|[]]] eqn:Hrun; simpl in *.
    + destruct Hrow as [(e' & _ & ->)|(rec & t & Hcalls & Hpre & Hperform & _)].
      * exists [], []. rewrite app_nil_r. by split_and!.
      * exists [rec], t. split_and!; try done.
        simpl. rewrite schedule_cons. etrans; [exact Hpre|]. by apply prefix_app_r.
    + destruct Hrow as [(e' & ? & _)|(rec & t & Hcalls & _ & Hperform & Hdone)];
        [done|].
      specialize (Hdone eq_refl). subst t.
      destruct (IH w1) as (recs & t' & Hcalls' & Hpre' & Hperform' & Hdone').
      exists (rec :: recs), (row_events (ex_tab_name_ ex) (cols (tab_ ex)) (rid, rec) ++ t').
      split_and!.
      * rewrite Hcalls', Hcalls. by rewrite <- app_assoc.
      * change (zip (rid :: rids) (rec :: recs)) with ((rid, rec) :: zip rids recs).
        rewrite schedule_cons. by apply prefix_app.
      * by rewrite (perform_app _ _ _ _ _ Hperform).
      * intros Hok. destruct (Hdone' Hok) as (Hlen & ->).
        split; [simpl; by rewrite Hlen|done].
Qed.

(** C5: what [Next] does to the index handles, the heap file and the
    transaction it does in the order of the schedule of its row
    identifiers: the state it leaves, whether it returns or throws, is the
    state reached from the one it began in by the effects of the first
    events of the schedule, each on the state the one before it left (all
    of the schedule when it returns).  In the schedule the rows come in
    the order given, and for each row the index entries of the indexed
    columns are deleted first, then the heap record, and then the write
    record is appended. *)
Theorem Next_follows_schedule ex w :
  let r := Next ex w in
  ∃ (recs : list RmRecord) (t : list event),
    w_calls r.1 = w_calls w ++ t ∧
    t `prefix_of` schedule (ex_tab_name_ ex) (cols (tab_ ex)) (zip (rids_ ex) recs) ∧
    perform (fh_ ex) t (w_sm w, w_txn w) = Some (w_sm r.1, w_txn r.1) ∧
    (r.2 = inr None →
       length recs = length (rids_ ex) ∧
       t = schedule (ex_tab_name_ ex) (cols (tab_ ex)) (zip (rids_ ex) recs)).
Proof.
  simpl. rewrite Next_run. rewrite get_all_index_files_world.
  destruct (rid_loop_performs ex (rids_ ex) w)
    as (recs & t & Hcalls & Hpre & Hperform & Hdone).
  simpl in *.
  destruct (for_each (delete_rid ex) (rids_ ex) w) as [w' [e|[]]]; simpl in *.
  - destruct (get_all_index_files ex w).2; simpl.
    + exists [], []. rewrite app_nil_r. split_and!; [done|apply prefix_nil|done|done].
    + exists recs, t. by split_and!.
  - destruct (get_all_index_files ex w).2; simpl.
    + exists [], []. rewrite app_nil_r. split_and!; [done|apply prefix_nil|done|done].
    + exists recs, t. split_and!; try done. intros _. by apply Hdone.
Qed.

End NextOrder.

(** A batch whose row has no entry in the index: [Next] throws, the row is
    still in the heap file and the transaction has no write record. *)
Example Next_index_entry_missing :
  let r := Next ex_T (w_T []) in
  r.2 = inl IndexEntryNotFoundError ∧
  (fh ← fhs_ (w_sm r.1) !! "T"; records fh !! R1) = Some row_5x ∧
  write_set_ (w_txn r.1) = [] ∧
  w_calls r.1 = [EvGetRecord R1 row_5x].
Proof. vm_compute. done. Qed.

(** The effects of the schedule of the scenario, performed one after the
    other, give the state that [Next] leaves. *)
Example perform_scenario :
  perform "T" (schedule "T" (cols tab_T) [(R1, row_5x)])
    (state_of (w_T [(key_5, R1)]))
    = Some (state_of (Next ex_T (w_T [(key_5, R1)])).1).
Proof. vm_compute. reflexivity. Qed.

(** A negative number of bytes becomes a count beyond the address range:
    [read] fails and [read_page] throws. *)
Example read_page_negative_count :
  read_page 4096 0 0 [b 0; b 0] (-1) m_opened
    = ((Lseek 0 0 SEEK_SET m_opened).1, inl UnixError).
Proof. vm_compute. reflexivity. Qed.
